(** * ACT4E-exercises: [act4e_checks/data.py]

    The fixture store ([get_all_test_data]), the reference resolver
    ([substitute]), the fixture query [filter_reqs], the conformance verbs
    ([dumpit_], [loadit_]) and the output validator ([check_good_output]),
    as functions over Python data, with what they guarantee.

    Python objects are trees that carry the identity of each container;
    code that builds objects runs over an allocator of identities, code that
    records failures runs over the test context, and both may raise. *)

From stdpp Require Import base decidable option list strings gmap.
From Stdlib Require Import ZArith.

Set Warnings "-register-all".

Open Scope string_scope.
Open Scope list_scope.

(* ===================================================================== *)
(** * Python data *)
(* ===================================================================== *)

(** Python's [id(x)]: two container occurrences denote the same object
    exactly when they carry the same identity.  Nothing in [data.py] mutates
    a data object after it was built, so an object is its identity together
    with its contents. *)
Definition oid := nat.

(** A [dict] with [str] keys: its items in insertion order.  The keys of a
    Python dict are pairwise distinct. *)
Abbreviation dict A := (list (string * A)) (only parsing).

(** The objects that reach [data.py]: what the YAML loader builds (scalars,
    [list], [dict]) and what a capability under test may hand back (also
    [tuple] and instances of any other class, given by the class name). *)
Inductive value : Type :=
| VNone
| VBool (b : bool)
| VInt (n : Z)
| VFloat (bits : Z)
| VStr (s : string)
| VDatetime (t : Z)
| VList (i : oid) (xs : list value)
| VDict (i : oid) (items : list (string * value))
| VTuple (i : oid) (xs : list value)
| VObject (i : oid) (cls : string).

(** [k in d] and [d[k]] / [d.get(k)]. *)
Fixpoint dict_get {A} (k : string) (d : dict A) : option A :=
  match d with
  | [] => None
  | (k', v) :: rest => if decide (k' = k) then Some v else dict_get k rest
  end.

Definition dict_has {A} (k : string) (d : dict A) : bool :=
  match dict_get k d with Some _ => true | None => false end.

(** [d.pop(k)]: the value, and the dict without the key. *)
Fixpoint dict_remove {A} (k : string) (d : dict A) : dict A :=
  match d with
  | [] => []
  | (k', v) :: rest =>
      if decide (k' = k) then dict_remove k rest else (k', v) :: dict_remove k rest
  end.

Definition dict_pop {A} (k : string) (d : dict A) : option (A * dict A) :=
  match dict_get k d with
  | Some v => Some (v, dict_remove k d)
  | None => None
  end.

(** [d[k] = v]: in place when the key is there, at the end otherwise. *)
Fixpoint dict_set {A} (k : string) (v : A) (d : dict A) : dict A :=
  match d with
  | [] => [(k, v)]
  | (k', v') :: rest =>
      if decide (k' = k) then (k, v) :: rest else (k', v') :: dict_set k v rest
  end.

Definition keys {A} (d : dict A) : list string := d.*1.

(** [set(d)] for a dict [d]: its key set. *)
Definition keyset {A} (d : dict A) : gset string := list_to_set (keys d).

(** [type(x).__name__] *)
Definition type_name (x : value) : string :=
  match x with
  | VNone => "NoneType"
  | VBool _ => "bool"
  | VInt _ => "int"
  | VFloat _ => "float"
  | VStr _ => "str"
  | VDatetime _ => "datetime"
  | VList _ _ => "list"
  | VDict _ _ => "dict"
  | VTuple _ _ => "tuple"
  | VObject _ cls => cls
  end.

(** The classes, besides [list] and [dict], whose instances cannot be
    hashed: the sets (the YAML loader builds a [CommentedSet] for [!!set])
    and [bytearray]. *)
Definition unhashable_classes : list string := ["set"; "CommentedSet"; "bytearray"].

(** Whether [hash(x)] succeeds: lists, dicts and sets are unhashable, a
    tuple is hashable when its elements are. *)
Fixpoint hashable (x : value) : bool :=
  match x with
  | VList _ _ | VDict _ _ => false
  | VTuple _ xs => forallb hashable xs
  | VObject _ cls => bool_decide (cls ∉ unhashable_classes)
  | _ => true
  end.

(** The object at which [hash(x)] fails: [x] itself, or the first
    unhashable object inside a tuple. *)
Fixpoint culprit (x : value) : option value :=
  match x with
  | VList _ _ | VDict _ _ => Some x
  | VTuple _ xs =>
      (fix first (l : list value) : option value :=
         match l with
         | [] => None
         | y :: rest =>
             match culprit y with
             | Some c => Some c
             | None => first rest
             end
         end) xs
  | VObject _ cls => if bool_decide (cls ∉ unhashable_classes) then None else Some x
  | _ => None
  end.

(* ===================================================================== *)
(** * Exceptions *)
(* ===================================================================== *)

(** The exception classes that matter to [data.py], and any class a
    capability under test derives from them. *)
Inductive exc_class : Type :=
| BaseException
| Exception
| KeyboardInterrupt
| SystemExit
| GeneratorExit
| TypeError
| ValueError
| RuntimeError
| NotImplementedError
| ZValueError
| InvalidFormat
| ImplementationFail
| UserClass (name : string) (base : exc_class).

#[global] Instance exc_class_eq_dec : EqDecision exc_class.
Proof. solve_decision. Defined.

(** The classes a class inherits from, itself first ([cls.__mro__] without
    [object]).  [ZValueError] is zuper_commons' ValueError; [InvalidFormat]
    (act4e_interfaces) and [ImplementationFail] (zuper_testint) are ordinary
    [Exception] subclasses. *)
Fixpoint mro (c : exc_class) : list exc_class :=
  c :: match c with
       | BaseException => []
       | Exception | KeyboardInterrupt | SystemExit | GeneratorExit => [BaseException]
       | TypeError | ValueError | RuntimeError | InvalidFormat | ImplementationFail =>
           [Exception; BaseException]
       | NotImplementedError => [RuntimeError; Exception; BaseException]
       | ZValueError => [ValueError; Exception; BaseException]
       | UserClass _ base => mro base
       end.

Definition issubclass (c d : exc_class) : bool := bool_decide (d ∈ mro c).

Definition class_name (c : exc_class) : string :=
  match c with
  | BaseException => "BaseException"
  | Exception => "Exception"
  | KeyboardInterrupt => "KeyboardInterrupt"
  | SystemExit => "SystemExit"
  | GeneratorExit => "GeneratorExit"
  | TypeError => "TypeError"
  | ValueError => "ValueError"
  | RuntimeError => "RuntimeError"
  | NotImplementedError => "NotImplementedError"
  | ZValueError => "ZValueError"
  | InvalidFormat => "InvalidFormat"
  | ImplementationFail => "ImplementationFail"
  | UserClass name _ => name
  end.

(** An f-string, kept in parts: literal text, [{s}] and [{s!r}]. *)
Inductive fpart : Type :=
| Lit (s : string)
| Fmt (s : string)
| FmtRepr (s : string).

Definition fstring := list fpart.

(** What is passed along with a message, as keyword arguments. *)
Inductive arg : Type :=
| AStr (s : string)
| AValue (v : value)
| ARecord (d : dict value)
| AKeys (s : gset string).

(** An exception object: class, message, keyword arguments and
    [__cause__] (set by [raise ... from e]). *)
Inductive exc : Type :=
| Exc (cls : exc_class) (msg : fstring) (kw : list (string * arg)) (cause : option exc).

Definition exc_cls (e : exc) : exc_class := let 'Exc c _ _ _ := e in c.
Definition exc_msg (e : exc) : fstring := let 'Exc _ m _ _ := e in m.
Definition exc_kw (e : exc) : list (string * arg) := let 'Exc _ _ kw _ := e in kw.
Definition exc_cause (e : exc) : option exc := let 'Exc _ _ _ c := e in c.

(** [isinstance(e, cls)], the test of an [except cls] clause. *)
Definition isinstance (e : exc) (c : exc_class) : bool := issubclass (exc_cls e) c.

(** The outcome of a call: a value, or a raised exception. *)
Inductive result (A : Type) : Type :=
| Ok (a : A)
| Raise (e : exc).
Arguments Ok {A} a.
Arguments Raise {A} e.

(** Code that reads and writes a state [S] (the allocator of object
    identities, or the test context) and may raise: the state at the raise
    is kept. *)
Definition M (S A : Type) : Type := S → result A * S.

Definition ret {S A} (a : A) : M S A := λ s, (Ok a, s).
Definition raise {S A} (e : exc) : M S A := λ s, (Raise e, s).
Definition bind {S A B} (m : M S A) (k : A → M S B) : M S B :=
  λ s, match m s with
       | (Ok a, s') => k a s'
       | (Raise e, s') => (Raise e, s')
       end.

Notation "x <- m ;; k" := (bind m (λ x, k))
  (at level 100, m at next level, right associativity).
Notation "m ;;; k" := (bind m (λ _, k))
  (at level 100, right associativity).

Section comprehensions.
Context {S A B : Type} (f : A → M S B).

(** [[f(x) for x in xs]], left to right. *)
Fixpoint mapM (xs : list A) : M S (list B) :=
  match xs with
  | [] => ret []
  | x :: rest => y <- f x ;; ys <- mapM rest ;; ret (y :: ys)
  end.

(** [{k: f(v) for k, v in d.items()}]: the keys of [d] are distinct, so
    each item is appended. *)
Fixpoint mapM_values (d : dict A) : M S (dict B) :=
  match d with
  | [] => ret []
  | (k, v) :: rest => y <- f v ;; ys <- mapM_values rest ;; ret ((k, y) :: ys)
  end.
End comprehensions.

Section loops.
Context {S A : Type} (body : A → M S unit).

(** [for x in xs: body(x)] *)
Fixpoint forM_ (xs : list A) : M S unit :=
  match xs with
  | [] => ret tt
  | x :: rest => body x ;;; forM_ rest
  end.
End loops.

(* ===================================================================== *)
(** * ReferenceResolver: [substitute] *)
(* ===================================================================== *)

(** The allocator: the next unused object identity.  It is ahead of the
    identities of the objects that exist. *)
Definition alloc := nat.

(** A new object is made: its identity. *)
Definition fresh : M alloc oid := λ n, (Ok n, S n).

(** A dict display [{}]. *)
Definition new_dict (items : list (string * value)) : M alloc value :=
  i <- fresh ;; ret (VDict i items).

Definition cannot_find (a : value) : exc :=
  Exc ZValueError [Lit "Cannot find entry to load"] [("a", AValue a)] None.

(** The [TypeError] of [hash(x)]: it names the type of the object that
    cannot be hashed. *)
Definition unhashable (x : value) : exc :=
  Exc TypeError [Lit "unhashable type: "; FmtRepr (type_name (default x (culprit x)))]
    [] None.

(** [loadit not in entries] / [entries[loadit]]: the keys of [entries] are
    strings, so another hashable object is not among them, and an
    unhashable one makes the lookup raise [TypeError]. *)
Definition lookup_entry (entries : dict value) (a loadit : value) : M alloc value :=
  match loadit with
  | VStr s =>
      match dict_get s entries with
      | None => raise (cannot_find a)
      | Some v => ret v
      end
  | _ => if hashable loadit then raise (cannot_find a) else raise (unhashable loadit)
  end.

(** [substitute], lines 160-175.  The comprehensions build a new dict and a
    new list; the [load] branch and the last branch return an object that
    exists. *)
Fixpoint substitute (entries : dict value) (a : value) {struct a} : M alloc value :=
  match a with
  | VDict _ items =>
      match dict_get "load" items with
      | Some loadit => lookup_entry entries a loadit
      | None =>
          i <- fresh ;;
          items' <- mapM_values (substitute entries) items ;;
          ret (VDict i items')
      end
  | VList _ xs =>
      i <- fresh ;;
      xs' <- mapM (substitute entries) xs ;;
      ret (VList i xs')
  | _ => ret a
  end.

(* ===================================================================== *)
(** * FixtureStore: [get_all_test_data] *)
(* ===================================================================== *)

(** The dataclass [TestData]; [tags], [requires] and [properties] are
    [Dict[str, ...]], [data] is any object. *)
Record TestData : Type := mkTestData {
  tags : dict value;
  requires : dict value;
  data : value;
  properties : dict value
}.

Definition set_data (t : TestData) (x : value) : TestData :=
  {| tags := tags t; requires := requires t; data := x; properties := properties t |}.

Definition ALLOWED_TAGS : gset string :=
  list_to_set
    ["poset"; "set"; "semigroup"; "monoid"; "group"; "relation"; "map"; "dp";
     "category"; "natural_transform"].

Definition ALLOWED_PROPERTIES : gset string :=
  list_to_set
    ["powerset"; "some_antichains"; "some_not_antichains"; "some_chains";
     "some_not_chains"; "surjective"; "defined_everywhere"; "single_valued";
     "injective"; "reflexive"; "irreflexive"; "transitive"; "asymmetric";
     "symmetric"; "antisymmetric"; "has_top"; "height"; "width"; "has_bottom";
     "top"; "opposite"; "bottom"; "lattice"; "some_not_uppersets";
     "some_lowersets"; "some_uppersets"; "some_not_lowersets"].

Definition ALLOWED_REQUIRES : gset string :=
  list_to_set ["set_product"; "poset_product"; "set_union"; "poset_sum"].

(** [d.pop(k, default)] *)
Definition pop_default {A} (k : string) (default : A) (d : dict A) : A * dict A :=
  match dict_pop k d with
  | Some r => r
  | None => (default, d)
  end.

(** One parsed fixture file: its name and the mapping that
    [yaml.load(data, Loader=RoundTripLoader)] returns, from fixture key to
    record mapping (the fixture file format).  Finding, reading and parsing
    the files (lines 92-113) is left to the caller. *)
Definition fixture_file : Type := string * dict (dict value).

(** The [TypeError] of [set(x)] on an object that cannot be iterated. *)
Definition not_a_mapping (x : value) : exc :=
  Exc TypeError [FmtRepr (type_name x); Lit " object is not iterable"] [] None.

(** [tags], [requires] and [properties] are mappings in the fixture format,
    and [TestData] declares them so; [set(x)] then is the key set of [x].
    Here anything else is refused with a [TypeError], which is what
    [set(x)] raises for [None] and the other scalars.  The code itself takes
    [set(x)] of whatever is there, so it accepts a sequence or a string in
    these fields and stores it: such files are outside the format
    ([in_format] below) and outside this development, and the statements
    that depend on the difference are made for files in the format. *)
Definition as_mapping (x : value) : M alloc (dict value) :=
  match x with
  | VDict _ items => ret items
  | _ => raise (not_a_mapping x)
  end.

(** The double quote, for messages. *)
Definition dquote : string := String (Ascii.ascii_of_nat 34) EmptyString.

Definition duplicate_key (k fn : string) : exc :=
  Exc ZValueError [Lit "Found duplicate key "; Fmt k; Lit " in "; Fmt fn] [] None.

Definition missing_data (k : string) (v : dict value) : exc :=
  Exc ZValueError [] [("k", AStr k); ("v", ARecord v)] None.

Definition unknown_properties (v vv : dict value) : exc :=
  Exc ZValueError [Lit "Unknown properties"] [("v", ARecord v); ("vv", ARecord vv)] None.

Definition extra_requires_error (k : string) (extra : gset string) : exc :=
  Exc ZValueError
    [Lit ("Extra " ++ dquote ++ "requires" ++ dquote ++ " for entry "); FmtRepr k]
    [("extra_requires", AKeys extra); ("allowed", AKeys ALLOWED_REQUIRES)] None.

Definition extra_properties_error (extra : gset string) : exc :=
  Exc ZValueError [Lit "Extra properties"] [("extra_properties", AKeys extra)] None.

Definition extra_tags_error (extra : gset string) : exc :=
  Exc ZValueError [Lit "Extra tags"] [("extra_tags", AKeys extra)] None.

(** [if extra: raise ...]: a set is true when it is not empty. *)
Definition check_extra (extra : gset string) (e : exc) : M alloc unit :=
  if decide (extra = ∅) then ret tt else raise e.

(** The body of the loop over [d.items()], lines 116-150: [res] is the
    result map so far, [fn] the file being read, [k] and [v] the item. *)
Definition add_record (fn : string) (res : dict TestData) (kv : string * dict value)
  : M alloc (dict TestData) :=
  let '(k, v) := kv in
  if dict_has k res then raise (duplicate_key k fn)
  else
    let vv := v in
    default <- new_dict [] ;;
    let '(tags, vv) := pop_default "tags" default vv in
    match dict_pop "data" vv with
    | None => raise (missing_data k v)
    | Some (data, vv) =>
        default <- new_dict [] ;;
        let '(requires, vv) := pop_default "requires" default vv in
        default <- new_dict [] ;;
        let '(properties, vv) := pop_default "properties" default vv in
        match vv with
        | _ :: _ => raise (unknown_properties v vv)
        | [] =>
            requires <- as_mapping requires ;;
            check_extra (keyset requires ∖ ALLOWED_REQUIRES)
              (extra_requires_error k (keyset requires ∖ ALLOWED_REQUIRES)) ;;;
            properties <- as_mapping properties ;;
            check_extra (keyset properties ∖ ALLOWED_PROPERTIES)
              (extra_properties_error (keyset properties ∖ ALLOWED_PROPERTIES)) ;;;
            tags <- as_mapping tags ;;
            check_extra (keyset tags ∖ ALLOWED_TAGS)
              (extra_tags_error (keyset tags ∖ ALLOWED_TAGS)) ;;;
            ret (dict_set k (mkTestData tags requires data properties) res)
        end
    end.

(** A [for] loop that updates an accumulator and may raise. *)
Fixpoint foldM {S A B} (f : B → A → M S B) (b : B) (xs : list A) : M S B :=
  match xs with
  | [] => ret b
  | x :: rest => b' <- f b x ;; foldM f b' rest
  end.

(** The loop over the files, lines 109-150. *)
Definition load_records (files : list fixture_file) (res : dict TestData)
  : M alloc (dict TestData) :=
  foldM (λ res '(fn, d), foldM (add_record fn) res d) res files.

(** [with add_context(k=k)].  zuper_commons is not part of the repository;
    what is taken of it here: a result passes; a [ZValueError] leaves with
    the context stored in its [info] under ["context"]; a [TypeError] leaves
    as a [ZTypeError] raised from it; anything else passes.  The statements
    below use the first only, and that an exception stays one. *)
Definition add_context {A} (k : string) (m : M alloc A) : M alloc A :=
  λ n, match m n with
       | (Ok a, n') => (Ok a, n')
       | (Raise e, n') =>
           let context := ("context", ARecord [("k", VStr k)]) in
           if isinstance e ZValueError then
             (Raise (Exc (exc_cls e) (exc_msg e) (exc_kw e ++ [context]) (exc_cause e)), n')
           else if isinstance e TypeError then
             (Raise (Exc (UserClass "ZTypeError" TypeError) (exc_msg e) [context] (Some e)),
              n')
           else (Raise e, n')
       end.

(** Lines 152-155.  [res[k]] is the [v] of the iteration (the keys of [res]
    are distinct), and assigning its [data] leaves the order of [res]. *)
Definition resolve_records (res : dict TestData) : M alloc (dict TestData) :=
  let entries := map (λ '(k, v), (k, data v)) res in
  mapM (λ '(k, v),
          x <- add_context k (substitute entries (data v)) ;;
          ret (k, set_data v x)) res.

(** [get_all_test_data], lines 107-157, given the files that [find_yamls]
    lists, parsed. *)
Definition get_all_test_data (files : list fixture_file) : M alloc (dict TestData) :=
  res <- load_records files [] ;;
  resolve_records res.

(* ===================================================================== *)
(** * FixtureQuery: [filter_reqs] *)
(* ===================================================================== *)

(** [filter_reqs], lines 296-303: [set(v.requires) == {req}] decides
    whether [res[k] = v] is run. *)
Definition filter_reqs (d : dict TestData) (req : string) : dict TestData :=
  foldl (λ res '(k, v),
           let requires := keyset (requires v) in
           if decide (requires = {[ req ]}) then dict_set k v res else res)
        [] d.

(* ===================================================================== *)
(** * The test context *)
(* ===================================================================== *)

(** What a recorded failure carries besides its message. *)
Inductive info : Type :=
| IObject (x : value)
| IYaml (x : value)
| ITraceback (e : exc).

Record failure : Type := mkFailure {
  f_msg : fstring;
  f_info : list (string * info)
}.

(** Modelled from the spec: zuper_testint's [TestContext] is not part of the
    repository.  The spec describes it as the collector in which failures
    accumulate, with a "record failure" and a "raise if any" operation, the
    latter raising the harness' "implementation failed" signal. *)
Definition TestContext : Type := list failure.

(** Modelled from the spec: [tc.fail(msg, **kw)] records one failure and
    returns. *)
Definition tc_fail (msg : fstring) (kw : list (string * info)) : M TestContext unit :=
  λ tc, (Ok tt, tc ++ [mkFailure msg kw]).

(** Modelled from the spec: [tc.raise_if_failures()] raises when a failure
    was recorded. *)
Definition raise_if_failures : M TestContext unit :=
  λ tc, match tc with
        | [] => (Ok tt, tc)
        | _ :: _ => (Raise (Exc ImplementationFail [] [] None), tc)
        end.

(** A Python type as [expect_type2] uses it: its [__name__] and its
    [isinstance] test. *)
Record pytype : Type := mkType {
  ty_name : string;
  has_instance : value → bool
}.

(** Modelled from the spec: [tc.expect_type2(x, K, msg)] records a failure
    when [x] is not an instance of [K]. *)
Definition expect_type2 (x : value) (K : pytype) (msg : fstring) : M TestContext unit :=
  if has_instance K x then ret tt else tc_fail msg [("x", IObject x)].

(* ===================================================================== *)
(** * OutputValidator: [check_good_output] *)
(* ===================================================================== *)

Definition is_tuple (x : value) : bool :=
  match x with VTuple _ _ => true | _ => false end.

(** [isinstance(x, (int, float, bool, datetime, dict, list, str))] *)
Definition is_OK (x : value) : bool :=
  match x with
  | VInt _ | VFloat _ | VBool _ | VDatetime _ | VDict _ _ | VList _ _ | VStr _ => true
  | _ => false
  end.

Definition tuple_msg : fstring :=
  [Lit ("You cannot use tuples for the concrete representation because they cannot be serialized in "
        ++ "YAML. Try using lists. (You can use tuples for the internal representation.)")].

Definition disallowed_msg (x : value) : fstring :=
  [Lit ("In the concrete representation you can use only one of the usable datatypes; you used "
        ++ "an object of type "); Fmt (type_name x)].

(** [check_good_output], lines 271-293. *)
Fixpoint check_good_output (x : value) {struct x} : M TestContext unit :=
  if is_tuple x then tc_fail tuple_msg [("x", IObject x)]
  else if negb (is_OK x) then tc_fail (disallowed_msg x) [("x", IObject x)]
  else
    match x with
    | VList _ xs => forM_ check_good_output xs
    | _ => ret tt
    end ;;;
    match x with
    | VDict _ items => forM_ (λ '(k, v), check_good_output v) items
    | _ => ret tt
    end.

(* ===================================================================== *)
(** * ConformanceRunner: [dumpit_], [loadit_] *)
(* ===================================================================== *)

(** [I.IOHelper] *)
Record IOHelper : Type := mkIOHelper {
  loadfile : string → result value
}.

Definition IOHelperImp : IOHelper :=
  {| loadfile name := Raise (Exc NotImplementedError [Fmt name] [] None) |}.

(** The protocols [Loader] and [Saver]: the capability under test, with the
    [__name__] of its type. *)
Record Loader : Type := mkLoader {
  loader_name : string;
  load : IOHelper → value → result value
}.

Record Saver : Type := mkSaver {
  saver_name : string;
  save : IOHelper → value → result value
}.

(** A call into the capability under test. *)
Definition call {S A} (r : result A) : M S A := λ s, (r, s).

(** [try: m  except ... as e: handler e] *)
Definition try_except {S A} (m : M S A) (handler : exc → M S A) : M S A :=
  λ s, match m s with
       | (Ok a, s') => (Ok a, s')
       | (Raise e, s') => handler e s'
       end.

(** [raise ImplementationFail() from e] *)
Definition implementation_fail_from {S A} (e : exc) : M S A :=
  raise (Exc ImplementationFail [] [] (Some e)).

(** [dumpit_], lines 235-249. *)
Definition dumpit_ (fsr : Saver) (h : IOHelper) (ob : value) : M TestContext value :=
  let KN := saver_name fsr in
  res <- try_except (call (save fsr h ob))
           (λ e,
              if isinstance e Exception then
                tc_fail [Fmt KN; Lit ":save() raised an exception"]
                  [("tb", ITraceback e); ("ob", IObject ob)] ;;;
                implementation_fail_from e
              else raise e) ;;
  match res with
  | VNone =>
      tc_fail [Fmt KN; Lit ":save() returned None"] [("ob", IObject ob)] ;;;
      raise (Exc ImplementationFail [] [] None)
  | _ =>
      check_good_output res ;;;
      raise_if_failures ;;;
      ret res
  end.

(** [loadit_], lines 252-268.  The last [else] is the case of an exception
    that no [except] clause matches. *)
Definition loadit_ (loader : Loader) (h : IOHelper) (data : value) (K : pytype)
  : M TestContext value :=
  let LN := loader_name loader in
  res <- try_except (call (load loader h data))
           (λ e,
              if isinstance e NotImplementedError then raise e
              else if isinstance e InvalidFormat then
                tc_fail [Lit "Implementation of "; Fmt LN;
                         Lit ".load() threw InvalidFormat but the format is valid."]
                  [("data", IYaml data); ("tb", ITraceback e)] ;;;
                implementation_fail_from e
              else if isinstance e BaseException then
                tc_fail [Lit "Implementation of "; Fmt LN; Lit ".load() threw ";
                         Fmt (class_name (exc_cls e)); Lit " but the format is valid."]
                  [("data", IYaml data); ("tb", ITraceback e)] ;;;
                implementation_fail_from e
              else raise e) ;;
  expect_type2 res K
    [Lit "Expected that "; Fmt LN; Lit ".load() returns a "; Fmt (ty_name K)] ;;;
  raise_if_failures ;;;
  ret res.

(* ===================================================================== *)
(** * Vocabulary of the statements *)
(* ===================================================================== *)

(** [y] is what [f x] returns, from some state. *)
Definition runs {S A B} (f : A → M S B) (x : A) (y : B) : Prop :=
  ∃ s s', f x s = (Ok y, s').

(** [isinstance(a, dict)] and [isinstance(a, list)], the tests of
    [substitute]. *)
Definition is_dict (a : value) : bool :=
  match a with VDict _ _ => true | _ => false end.
Definition is_list (a : value) : bool :=
  match a with VList _ _ => true | _ => false end.

(** The test of [filter_reqs]. *)
Definition requires_exactly (req : string) (t : TestData) : Prop :=
  keyset (requires t) = {[ req ]}.

(* ===================================================================== *)
(** * Positions inside a data tree *)
(* ===================================================================== *)

(** One step down: into the value of a mapping key, or into a sequence
    element. *)
Inductive step : Type :=
| Key (k : string)
| Index (j : nat).

(** A reference: a mapping with the key ["load"]. *)
Definition is_reference (a : value) : bool :=
  match a with
  | VDict _ items => dict_has "load" items
  | _ => false
  end.

(** [child a s]: the node one step below [a].  There is nothing below a
    reference: [substitute] replaces it whole. *)
Definition child (a : value) (s : step) : option value :=
  match a, s with
  | VDict _ items, Key k => if dict_has "load" items then None else dict_get k items
  | VList _ xs, Index j => xs !! j
  | _, _ => None
  end.

(** The node at the end of a path. *)
Fixpoint at_path (a : value) (p : list step) : option value :=
  match p with
  | [] => Some a
  | s :: rest =>
      match child a s with
      | Some b => at_path b rest
      | None => None
      end
  end.

(** The same, without the rule for references: plain navigation through the
    mappings and sequences of a tree. *)
Definition child_raw (a : value) (s : step) : option value :=
  match a, s with
  | VDict _ items, Key k => dict_get k items
  | VList _ xs, Index j => xs !! j
  | _, _ => None
  end.

Fixpoint at_path_raw (a : value) (p : list step) : option value :=
  match p with
  | [] => Some a
  | s :: rest =>
      match child_raw a s with
      | Some b => at_path_raw b rest
      | None => None
      end
  end.

(** All the items of a fixture set, in the order in which they are read. *)
Definition all_items (files : list fixture_file) : dict (dict value) :=
  concat (map snd files).

(** Key [k] is defined in two different files. *)
Definition in_two_files (files : list fixture_file) (k : string) : Prop :=
  ∃ i j fi fj, i ≠ j ∧ files !! i = Some fi ∧ files !! j = Some fj
               ∧ k ∈ keys fi.2 ∧ k ∈ keys fj.2.

(** The exception mentions [s]: in its message, or as a keyword argument. *)
Definition names (e : exc) (s : string) : Prop :=
  Fmt s ∈ exc_msg e ∨ FmtRepr s ∈ exc_msg e ∨ ∃ kw, (kw, AStr s) ∈ exc_kw e.

(** The exception lists the key set [extra] (as some keyword argument). *)
Definition lists_keys (e : exc) (extra : gset string) : Prop :=
  ∃ kw, (kw, AKeys extra) ∈ exc_kw e.

(* ===================================================================== *)
(** * What the loop of [get_all_test_data] accepts *)
(* ===================================================================== *)

(** A metadata field of a raw record, read as the loop reads it: the empty
    mapping when the field is absent, its items when it is a mapping. *)
Definition field_items (f : string) (v : dict value) : option (dict value) :=
  match dict_get f v with
  | None => Some []
  | Some (VDict _ items) => Some items
  | Some _ => None
  end.

(** What is left of a raw record after the four [pop]s. *)
Definition leftover (v : dict value) : dict value :=
  dict_remove "properties" (dict_remove "requires" (dict_remove "data" (dict_remove "tags" v))).

(** The checks of lines 135-150, once the four fields are popped. *)
Definition validate (res : dict TestData) (k : string) (data requires properties tags : value)
  : M alloc (dict TestData) :=
  requires <- as_mapping requires ;;
  check_extra (keyset requires ∖ ALLOWED_REQUIRES)
    (extra_requires_error k (keyset requires ∖ ALLOWED_REQUIRES)) ;;;
  properties <- as_mapping properties ;;
  check_extra (keyset properties ∖ ALLOWED_PROPERTIES)
    (extra_properties_error (keyset properties ∖ ALLOWED_PROPERTIES)) ;;;
  tags <- as_mapping tags ;;
  check_extra (keyset tags ∖ ALLOWED_TAGS)
    (extra_tags_error (keyset tags ∖ ALLOWED_TAGS)) ;;;
  ret (dict_set k (mkTestData tags requires data properties) res).

(** Record [kt] is item [kv] as read: same key, the [data] and the three
    mappings of the raw record, each within its whitelist. *)
Definition accepted (kv : string * dict value) (kt : string * TestData) : Prop :=
  kv.1 = kt.1
  ∧ dict_get "data" kv.2 = Some (data kt.2)
  ∧ leftover kv.2 = []
  ∧ field_items "requires" kv.2 = Some (requires kt.2)
  ∧ field_items "properties" kv.2 = Some (properties kt.2)
  ∧ field_items "tags" kv.2 = Some (tags kt.2)
  ∧ keyset (requires kt.2) ∖ ALLOWED_REQUIRES = ∅
  ∧ keyset (properties kt.2) ∖ ALLOWED_PROPERTIES = ∅
  ∧ keyset (tags kt.2) ∖ ALLOWED_TAGS = ∅.

(** [entries] of line 152 before any substitution: the [data] of every item
    read, as the files give it. *)
Definition raw_entries (files : list fixture_file) : dict value :=
  omap (λ '(k, v), match dict_get "data" v with
                   | Some x => Some (k, x)
                   | None => None
                   end) (all_items files).

(** The whitelist of a metadata field. *)
Definition allowed_for (f : string) : gset string :=
  if decide (f = "tags") then ALLOWED_TAGS
  else if decide (f = "requires") then ALLOWED_REQUIRES
  else ALLOWED_PROPERTIES.

(** The error of the first of the three whitelist checks that fails, in the
    order of the code: [requires], [properties], [tags]. *)
Definition first_extra (k : string) (R P T : dict value) : exc :=
  if decide (keyset R ∖ ALLOWED_REQUIRES = ∅) then
    if decide (keyset P ∖ ALLOWED_PROPERTIES = ∅) then
      extra_tags_error (keyset T ∖ ALLOWED_TAGS)
    else extra_properties_error (keyset P ∖ ALLOWED_PROPERTIES)
  else extra_requires_error k (keyset R ∖ ALLOWED_REQUIRES).

(** The key set that [first_extra] reports. *)
Definition first_extra_keys (R P T : dict value) : gset string :=
  if decide (keyset R ∖ ALLOWED_REQUIRES = ∅) then
    if decide (keyset P ∖ ALLOWED_PROPERTIES = ∅) then keyset T ∖ ALLOWED_TAGS
    else keyset P ∖ ALLOWED_PROPERTIES
  else keyset R ∖ ALLOWED_REQUIRES.

(* ===================================================================== *)
(** * Sample data *)
(* ===================================================================== *)

Definition only_requires (requires : dict value) : TestData :=
  {| tags := [("set", VBool true)]; requires := requires;
     data := VNone; properties := [] |}.

(** Three records: one needs [set_union] (though it says [False]), one needs
    nothing, one needs [set_union] and [poset_sum]. *)
Definition sample_corpus : dict TestData :=
  [("a", only_requires [("set_union", VBool false)]);
   ("b", only_requires []);
   ("c", only_requires [("set_union", VBool true); ("poset_sum", VBool true)])].

(** The same records with other values in [requires] (and in another order
    of the keys), and other tags and data. *)
Definition revalued_corpus : dict TestData :=
  [("a", {| tags := []; requires := [("set_union", VBool true)];
            data := VInt 1; properties := [] |});
   ("b", only_requires []);
   ("c", only_requires [("poset_sum", VNone); ("set_union", VBool false)])].

(** Key ["a"] is in both files; the record read first has no [data]. *)
Definition shared_key_files : list fixture_file :=
  [("one.yaml", [("b", [("tags", VDict 0 [("set", VBool true)])]);
                 ("a", [("data", VInt 1)])]);
   ("two.yaml", [("a", [("data", VInt 2)])])].

(** The same key in both files, and nothing else wrong. *)
Definition duplicate_files : list fixture_file :=
  [("one.yaml", [("b", [("data", VInt 0)]); ("a", [("data", VInt 1)])]);
   ("two.yaml", [("c", [("data", VInt 3)]); ("a", [("data", VInt 2)])])].

(** One record with a key outside the whitelist in [requires] and another
    one in [tags]. *)
Definition extra_keys_record : dict value :=
  [("data", VInt 1);
   ("tags", VDict 0 [("set", VBool true); ("bogus", VBool true)]);
   ("requires", VDict 1 [("set_union", VBool true); ("foo", VBool true)])].

Definition extra_keys_files : list fixture_file :=
  [("one.yaml", [("ok", [("data", VInt 0)]); ("a", extra_keys_record)])].

(** Record ["a"] has the key ["bogus"] in its [tags] and nothing else wrong;
    record ["z"], read before it, has no [data]. *)
Definition extra_tag_record : dict value :=
  [("data", VInt 1); ("tags", VDict 1 [("set", VBool true); ("bogus", VBool true)])].

Definition preempted_files : list fixture_file :=
  [("one.yaml", [("z", [("tags", VDict 0 [("set", VBool true)])]);
                 ("a", extra_tag_record)])].

(** Record ["A"] refers to ["B"], whose data refers to ["C"]. *)
Definition chained_files : list fixture_file :=
  [("base.yaml", [("C", [("data", VInt 1)]);
                  ("B", [("data", VDict 10 [("x", VDict 11 [("load", VStr "C")])])])]);
   ("derived.yaml", [("A", [("data", VList 20 [VInt 0; VDict 21 [("load", VStr "B")]])])])].

(** The corpus that [get_all_test_data] returns on [chained_files]. *)
Definition chained_corpus : dict TestData := Eval vm_compute in
    match (get_all_test_data chained_files 100).1 with
    | Ok res => res
    | Raise _ => []
    end.

(* ===================================================================== *)
(** * The rest of [data.py] *)
(* ===================================================================== *)

(** [s.endswith(suffix)] *)
Fixpoint endswith (s suffix : string) : bool :=
  if String.eqb s suffix then true
  else match s with
       | EmptyString => false
       | String _ rest => endswith rest suffix
       end.

(** [b.startswith("/")]; the slash is character 47. *)
Definition starts_with_slash (s : string) : bool :=
  match s with
  | String c _ => Ascii.eqb c (Ascii.ascii_of_nat 47)
  | EmptyString => false
  end.

(** [os.path.join(a, b)], as [posixpath] defines it for two parts. *)
Definition path_join (a b : string) : string :=
  if starts_with_slash b then b
  else if String.eqb a "" || endswith a "/" then String.append a b
  else String.append a (String.append "/" b).

(** [find_yamls], lines 81-87.  [listdir] is [os.listdir], which may
    raise. *)
Definition find_yamls (listdir : string → result (list string)) (dirnames : list string)
  : M unit (list string) :=
  foldM (λ res dirname,
           names <- call (listdir dirname) ;;
           foldM (λ res f,
                    if endswith f ".yaml" then ret (res ++ [path_join dirname f])
                    else ret res)
                 res names)
        [] dirnames.

(** Python truth of an object that the YAML loader builds, for [if x]: a
    float, given by its IEEE-754 bits, is false when it is [0.0] or [-0.0];
    an instance of another class is taken as true (an empty set or empty
    bytes would be false; [TestData] declares the values of [tags] as
    [bool]). *)
Definition truthy (x : value) : bool :=
  match x with
  | VNone => false
  | VBool b => b
  | VInt n => negb (n =? 0)%Z
  | VFloat bits => negb ((bits =? 0)%Z || (bits =? 2 ^ 63)%Z)
  | VStr s => negb (String.eqb s "")
  | VList _ xs | VTuple _ xs => match xs with [] => false | _ :: _ => true end
  | VDict _ items => match items with [] => false | _ :: _ => true end
  | VDatetime _ | VObject _ _ => true
  end.

(** [get_test_data], lines 203-210, on the corpus [alldata] that
    [get_all_test_data()] returns. *)
Definition get_test_data (alldata : dict TestData) (tagname : string) : dict TestData :=
  foldl (λ res '(k, v),
           if truthy (default (VBool false) (dict_get tagname (tags v)))
           then dict_set k v res else res)
        [] alldata.

(** Lines 191-200. *)
Definition get_test_relations (alldata : dict TestData) : dict TestData :=
  get_test_data alldata "relation".
Definition get_test_posets (alldata : dict TestData) : dict TestData :=
  get_test_data alldata "poset".
Definition get_test_sets (alldata : dict TestData) : dict TestData :=
  get_test_data alldata "set".

(* ===================================================================== *)
(** * Vocabulary of the further statements *)
(* ===================================================================== *)

(** Every reference that [substitute] meets in [a] names, by a string, a
    key of [entries]. *)
Fixpoint resolvable (entries : dict value) (a : value) {struct a} : bool :=
  match a with
  | VDict _ items =>
      match dict_get "load" items with
      | Some (VStr s) => dict_has s entries
      | Some _ => false
      | None => forallb (λ '(k, v), resolvable entries v) items
      end
  | VList _ xs => forallb (resolvable entries) xs
  | _ => true
  end.

(** No reference is left where [substitute] would look: in [a] itself, in
    the values of its mappings, in the elements of its sequences. *)
Fixpoint reference_free (a : value) {struct a} : bool :=
  match a with
  | VDict _ items =>
      negb (dict_has "load" items) && forallb (λ '(k, v), reference_free v) items
  | VList _ xs => forallb reference_free xs
  | _ => true
  end.

(** Every reference that [substitute] meets in [a] names an entry that is
    itself free of references. *)
Fixpoint targets_free (entries : dict value) (a : value) {struct a} : bool :=
  match a with
  | VDict _ items =>
      match dict_get "load" items with
      | Some (VStr s) =>
          match dict_get s entries with
          | Some v => reference_free v
          | None => false
          end
      | Some _ => false
      | None => forallb (λ '(k, v), targets_free entries v) items
      end
  | VList _ xs => forallb (targets_free entries) xs
  | _ => true
  end.

(** An object without the identities: what [==] compares on the data that
    the YAML loader builds. *)
Fixpoint shape (a : value) {struct a} : value :=
  match a with
  | VList _ xs => VList 0 (map shape xs)
  | VDict _ items => VDict 0 (map (λ '(k, v), (k, shape v)) items)
  | VTuple _ xs => VTuple 0 (map shape xs)
  | VObject _ cls => VObject 0 cls
  | _ => a
  end.

(** The identities of the lists and dicts of a tree, as [substitute] walks
    it. *)
Fixpoint container_ids (a : value) {struct a} : list oid :=
  match a with
  | VList i xs => i :: concat (map container_ids xs)
  | VDict i items => i :: concat (map (λ '(k, v), container_ids v) items)
  | _ => []
  end.

(** A value that [check_good_output] accepts: of an allowed type, and so
    are the elements of its lists and the values of its dicts. *)
Fixpoint good (x : value) {struct x} : bool :=
  match x with
  | VInt _ | VFloat _ | VBool _ | VDatetime _ | VStr _ => true
  | VList _ xs => forallb good xs
  | VDict _ items => forallb (λ '(k, v), good v) items
  | _ => false
  end.

(** The nodes at which [check_good_output] stops with a failure, in the
    order in which it comes to them: the tuples and the objects of another
    type, met in [x], in the elements of its lists and in the values of its
    dicts. *)
Fixpoint bad_nodes (x : value) {struct x} : list value :=
  match x with
  | VInt _ | VFloat _ | VBool _ | VDatetime _ | VStr _ => []
  | VList _ xs => concat (map bad_nodes xs)
  | VDict _ items => concat (map (λ '(k, v), bad_nodes v) items)
  | _ => [x]
  end.

(** The failure that [check_good_output] records at node [y]. *)
Definition violation_at (y : value) : failure :=
  if is_tuple y then mkFailure tuple_msg [("x", IObject y)]
  else mkFailure (disallowed_msg y) [("x", IObject y)].

(** The four fields of a raw record. *)
Definition known_fields : list string := ["tags"; "data"; "requires"; "properties"].

(** A raw record that the loop takes: it has [data], no other field than
    the four, and its three mappings are within their whitelists. *)
Definition valid_record (v : dict value) : Prop :=
  is_Some (dict_get "data" v)
  ∧ leftover v = []
  ∧ ∃ R P T, field_items "requires" v = Some R
             ∧ field_items "properties" v = Some P
             ∧ field_items "tags" v = Some T
             ∧ keyset R ∖ ALLOWED_REQUIRES = ∅
             ∧ keyset P ∖ ALLOWED_PROPERTIES = ∅
             ∧ keyset T ∖ ALLOWED_TAGS = ∅.

(** A raw record in the fixture format: its [tags], [requires] and
    [properties], when present, are mappings. *)
Definition in_format (v : dict value) : Prop :=
  ∀ f x, f ∈ ["tags"; "requires"; "properties"] → dict_get f v = Some x → is_dict x = true.

(** The raw [data] of an item resolves against [entries]. *)
Definition data_resolvable (entries : dict value) (kv : string * dict value) : Prop :=
  ∀ x, dict_get "data" kv.2 = Some x → resolvable entries x = true.

(** [reaches a y]: [substitute] on [a] comes to node [y], going down
    through sequences and through mappings that are not references. *)
Inductive reaches : value → value → Prop :=
| reaches_here a : reaches a a
| reaches_element i xs x y : x ∈ xs → reaches x y → reaches (VList i xs) y
| reaches_value i items k x y :
    dict_get "load" items = None → (k, x) ∈ items → reaches x y →
    reaches (VDict i items) y.

(** Record [kt] of the corpus comes from item [kv] of the files: same key,
    the metadata of the raw record (each within its whitelist), and as
    [data] what [substitute] returns on the raw data. *)
Definition record_of (entries : dict value) (kv : string * dict value)
    (kt : string * TestData) : Prop :=
  kv.1 = kt.1
  ∧ (∃ x, dict_get "data" kv.2 = Some x ∧ runs (substitute entries) x (data kt.2))
  ∧ leftover kv.2 = []
  ∧ field_items "requires" kv.2 = Some (requires kt.2)
  ∧ field_items "properties" kv.2 = Some (properties kt.2)
  ∧ field_items "tags" kv.2 = Some (tags kt.2)
  ∧ keyset (requires kt.2) ⊆ ALLOWED_REQUIRES
  ∧ keyset (properties kt.2) ⊆ ALLOWED_PROPERTIES
  ∧ keyset (tags kt.2) ⊆ ALLOWED_TAGS.

(** Two sound files: a set, and a poset whose carrier is that set. *)
Definition sound_files : list fixture_file :=
  [("sets.yaml",
    [("set1", [("tags", VDict 1 [("set", VBool true)]);
               ("data", VDict 2 [("elements", VList 3 [VInt 1; VInt 2])])])]);
   ("posets.yaml",
    [("poset1", [("data", VDict 4 [("carrier", VDict 5 [("load", VStr "set1")])]);
                 ("tags", VDict 6 [("poset", VBool true)]);
                 ("requires", VDict 7 [("poset_sum", VBool false)]);
                 ("properties", VDict 8 [("height", VInt 2)])])])].

(** The corpus that [get_all_test_data] returns on [sound_files]. *)
Definition sound_corpus : dict TestData := Eval vm_compute in
    match (get_all_test_data sound_files 100).1 with
    | Ok res => res
    | Raise _ => []
    end.

(** A record without [data], with a field that is not known and a tag
    outside the whitelist as well; and the same record with [data]. *)
Definition no_data_record : dict value :=
  [("tags", VDict 1 [("bogus", VBool true)]); ("comment", VStr "to do")].

Definition unknown_field_record : dict value :=
  [("comment", VStr "to do"); ("data", VInt 1);
   ("tags", VDict 1 [("bogus", VBool true)]); ("note", VInt 2)].

(** The paths that [find_yamls] takes from one directory: its entries that
    end in [.yaml], in the order of the listing, joined to its name. *)
Definition yamls_of (listdir : string → result (list string)) (dirname : string)
  : list string :=
  match listdir dirname with
  | Ok names => map (path_join dirname) (filter (λ f, endswith f ".yaml" = true) names)
  | Raise _ => []
  end.

(** A listing for the samples: one directory, the others do not exist. *)
Definition sample_listdir (dirname : string) : result (list string) :=
  if String.eqb dirname "thedata" then Ok ["sets.yaml"; "README.md"; "posets.yaml"; "old.yaml.bak"]
  else Raise (Exc (UserClass "FileNotFoundError" Exception) [Fmt dirname] [] None).

(* ===================================================================== *)
(** * Dictionaries *)
(* ===================================================================== *)

Section dict_facts.
Context {A : Type}.
Implicit Types (d : dict A) (k : string) (v : A).

Lemma dict_get_Some_elem d k v : dict_get k d = Some v → (k, v) ∈ d.
Proof.
  induction d as [|[k' v'] d IH]; simpl; [done|].
  destruct (decide (k' = k)) as [->|]; intros Hget.
  - simplify_eq. left.
  - right. auto.
Qed.

Lemma dict_get_None d k : dict_get k d = None ↔ k ∉ keys d.
Proof.
  unfold keys. induction d as [|[k' v'] d IH]; simpl.
  - split; [intros _; apply not_elem_of_nil | done].
  - case_decide; subst.
    + split; [done | intros []; left].
    + rewrite IH, not_elem_of_cons. split; [by intros ? | by intros [_ ?]].
Qed.

Lemma dict_has_false d k : dict_has k d = false ↔ k ∉ keys d.
Proof.
  unfold dict_has. rewrite <- dict_get_None.
  destruct (dict_get k d); naive_solver.
Qed.

Lemma dict_has_true d k : dict_has k d = true ↔ k ∈ keys d.
Proof.
  destruct (dict_has k d) eqn:E.
  - split; [intros _ | done]. destruct (decide (k ∈ keys d)) as [|Hn]; [done|].
    apply dict_has_false in Hn. congruence.
  - apply dict_has_false in E. naive_solver.
Qed.

Lemma dict_get_NoDup d k v : NoDup (keys d) → (k, v) ∈ d → dict_get k d = Some v.
Proof.
  unfold keys. induction d as [|[k' v'] d IH]; simpl; intros Hnd Hin.
  - by apply elem_of_nil in Hin.
  - apply NoDup_cons in Hnd as [Hk Hnd]. apply elem_of_cons in Hin as [Heq|Hin].
    + simplify_eq. by rewrite decide_True.
    + rewrite decide_False; [auto|]. intros ->. apply Hk.
      apply list_elem_of_fmap. by exists (k, v).
Qed.

(** [d[k] = v] on a new key appends the item. *)
Lemma dict_set_fresh d k v : k ∉ keys d → dict_set k v d = d ++ [(k, v)].
Proof.
  unfold keys. induction d as [|[k' v'] d IH]; simpl; [done|].
  rewrite not_elem_of_cons. intros [Hne Hk].
  rewrite decide_False by done. by rewrite IH.
Qed.

Lemma dict_get_remove_ne d k k' : k ≠ k' → dict_get k (dict_remove k' d) = dict_get k d.
Proof.
  intros Hne. induction d as [|[k0 v0] d IH]; simpl; [done|].
  destruct (decide (k0 = k')) as [->|]; simpl.
  - by rewrite decide_False.
  - by rewrite IH.
Qed.

Lemma dict_get_app d1 d2 k :
  dict_get k (d1 ++ d2) = match dict_get k d1 with Some v => Some v | None => dict_get k d2 end.
Proof.
  induction d1 as [|[k' v'] d1 IH]; simpl; [done|]. by case_decide.
Qed.
End dict_facts.

(* ===================================================================== *)
(** * The monad *)
(* ===================================================================== *)

Section monad_facts.
Context {S : Type}.

Lemma bind_Ok {A B} (m : M S A) (k : A → M S B) s a s1 :
  m s = (Ok a, s1) → bind m k s = k a s1.
Proof. unfold bind. by intros ->. Qed.

Lemma bind_Raise {A B} (m : M S A) (k : A → M S B) s e s1 :
  m s = (Raise e, s1) → bind m k s = (Raise e, s1).
Proof. unfold bind. by intros ->. Qed.

Lemma bind_Ok_inv {A B} (m : M S A) (k : A → M S B) s b s' :
  bind m k s = (Ok b, s') → ∃ a s1, m s = (Ok a, s1) ∧ k a s1 = (Ok b, s').
Proof.
  unfold bind. destruct (m s) as [[a|e] s1]; [eauto | done].
Qed.

Lemma mapM_Ok_inv {A B} (f : A → M S B) xs s ys s' :
  mapM f xs s = (Ok ys, s') → Forall2 (runs f) xs ys.
Proof.
  revert s ys. induction xs as [|x xs IH]; simpl; intros s ys Hrun.
  - unfold ret in Hrun. simplify_eq. constructor.
  - apply bind_Ok_inv in Hrun as (y & s1 & Hy & Hrun).
    apply bind_Ok_inv in Hrun as (ys' & s2 & Hys & Hrun).
    unfold ret in Hrun. simplify_eq. constructor; [by exists s, s1 | eauto].
Qed.

Lemma mapM_values_Ok_inv {A B} (f : A → M S B) (d : dict A) s d' s' :
  mapM_values f d s = (Ok d', s') →
  Forall2 (λ kx ky, kx.1 = ky.1 ∧ runs f kx.2 ky.2) d d'.
Proof.
  revert s d'. induction d as [|[k x] d IH]; simpl; intros s d' Hrun.
  - unfold ret in Hrun. simplify_eq. constructor.
  - apply bind_Ok_inv in Hrun as (y & s1 & Hy & Hrun).
    apply bind_Ok_inv in Hrun as (ys' & s2 & Hys & Hrun).
    unfold ret in Hrun. simplify_eq. constructor; [|eauto].
    split; [done|]. by exists s, s1.
Qed.

(** When [f] returns from every state on every element, so does the
    comprehension. *)
Lemma mapM_total {A B} (f : A → M S B) xs :
  (∀ x, x ∈ xs → ∀ s, ∃ y s', f x s = (Ok y, s')) →
  ∀ s, ∃ ys s', mapM f xs s = (Ok ys, s').
Proof.
  induction xs as [|x xs IH]; simpl; intros Hf s.
  - by exists [], s.
  - destruct (Hf x ltac:(left) s) as (y & s1 & Hy).
    destruct (IH (λ z Hz, Hf z ltac:(by right)) s1) as (ys & s2 & Hys).
    exists (y :: ys), s2. erewrite bind_Ok by done. by erewrite bind_Ok.
Qed.

Lemma mapM_values_total {A B} (f : A → M S B) (d : dict A) :
  (∀ k x, (k, x) ∈ d → ∀ s, ∃ y s', f x s = (Ok y, s')) →
  ∀ s, ∃ d' s', mapM_values f d s = (Ok d', s').
Proof.
  induction d as [|[k x] d IH]; simpl; intros Hf s.
  - by exists [], s.
  - destruct (Hf k x ltac:(left) s) as (y & s1 & Hy).
    destruct (IH (λ k' z Hz, Hf k' z ltac:(by right)) s1) as (ys & s2 & Hys).
    exists ((k, y) :: ys), s2. erewrite bind_Ok by done. by erewrite bind_Ok.
Qed.
End monad_facts.

(* ===================================================================== *)
(** * ReferenceResolver *)
(* ===================================================================== *)

(** The [load] branch of [substitute]. *)
Lemma substitute_load_entry entries i items X v n :
  dict_get "load" items = Some (VStr X) →
  dict_get X entries = Some v →
  substitute entries (VDict i items) n = (Ok v, n).
Proof.
  intros Hload HX. simpl. rewrite Hload. simpl. by rewrite HX.
Qed.

(** C1.  A mapping node whose ["load"] entry is a key [X] of the corpus
    resolves to [corpus[X]] itself: the object that the corpus holds, with
    its identity, is returned, and no object is built (the allocator is left
    as it was).  Nothing else of the node is read: the other items of the
    node are arbitrary. *)
Theorem substitute_load_returns_entry
    (entries : dict value) (i : oid) (items : list (string * value))
    (X : string) (v : value) (n : alloc) :
  dict_get "load" items = Some (VStr X) →
  dict_get X entries = Some v →
  substitute entries (VDict i items) n = (Ok v, n).
Proof.
  intros Hload HX. by eapply substitute_load_entry.
Qed.

Lemma substitute_load_returns_entry_witness :
  substitute [("base", VDict 7 [("x", VInt 1)])]
    (VDict 3 [("other", VInt 5); ("load", VStr "base"); ("more", VList 4 [])]) 10
  = (Ok (VDict 7 [("x", VInt 1)]), 10).
Proof.
  apply (substitute_load_returns_entry
           [("base", VDict 7 [("x", VInt 1)])] 3
           [("other", VInt 5); ("load", VStr "base"); ("more", VList 4 [])]
           "base"); reflexivity.
Defined.

Lemma substitute_list_Ok_inv entries i xs n r n' :
  substitute entries (VList i xs) n = (Ok r, n') →
  ∃ j ys, r = VList j ys ∧ Forall2 (runs (substitute entries)) xs ys.
Proof.
  simpl. intros Hrun. apply bind_Ok_inv in Hrun as (j & n0 & _ & Hrun).
  apply bind_Ok_inv in Hrun as (ys & n1 & Hys & Hret).
  unfold ret in Hret. simplify_eq. exists j, ys. split; [done|].
  by eapply mapM_Ok_inv.
Qed.

Lemma substitute_dict_Ok_inv entries i items n r n' :
  dict_get "load" items = None →
  substitute entries (VDict i items) n = (Ok r, n') →
  ∃ j items', r = VDict j items'
    ∧ Forall2 (λ kx ky, kx.1 = ky.1 ∧ runs (substitute entries) kx.2 ky.2) items items'.
Proof.
  simpl. intros -> Hrun. apply bind_Ok_inv in Hrun as (j & n0 & _ & Hrun).
  apply bind_Ok_inv in Hrun as (ys & n1 & Hys & Hret).
  unfold ret in Hret. simplify_eq. exists j, ys. split; [done|].
  by eapply mapM_values_Ok_inv.
Qed.

Lemma Forall2_items_split {A B} (R : A → B → Prop) (d : dict A) (d' : dict B) :
  Forall2 (λ kx ky, kx.1 = ky.1 ∧ R kx.2 ky.2) d d' →
  keys d' = keys d ∧ Forall2 R d.*2 d'.*2.
Proof.
  unfold keys. induction 1 as [|[k x] [k' y] d d' [Hk Hxy] _ [IH1 IH2]]; simpl in *.
  - split; [done | constructor].
  - subst. split; [by f_equal | by constructor].
Qed.

(** C2.  [substitute] returns a node that is neither a dict nor a list as it
    is.  A list resolves to a list of the same length whose elements are, in
    order, what [substitute] returns on the elements; a dict without
    ["load"] resolves to a dict with the same keys in the same order whose
    values are what [substitute] returns on the values.  Both do return
    whenever [substitute] returns on every element or value. *)
Theorem substitute_structural (entries : dict value) :
  (∀ a n, is_dict a = false → is_list a = false →
          substitute entries a n = (Ok a, n))
  ∧ (∀ i xs n r n',
       substitute entries (VList i xs) n = (Ok r, n') →
       ∃ j ys, r = VList j ys ∧ length ys = length xs
               ∧ Forall2 (runs (substitute entries)) xs ys)
  ∧ (∀ i items n r n',
       dict_get "load" items = None →
       substitute entries (VDict i items) n = (Ok r, n') →
       ∃ j items', r = VDict j items' ∧ keys items' = keys items
                   ∧ Forall2 (runs (substitute entries)) items.*2 items'.*2)
  ∧ (∀ i xs,
       (∀ x, x ∈ xs → ∀ m, ∃ y m', substitute entries x m = (Ok y, m')) →
       ∀ n, ∃ r n', substitute entries (VList i xs) n = (Ok r, n'))
  ∧ (∀ i items,
       dict_get "load" items = None →
       (∀ k x, (k, x) ∈ items → ∀ m, ∃ y m', substitute entries x m = (Ok y, m')) →
       ∀ n, ∃ r n', substitute entries (VDict i items) n = (Ok r, n')).
Proof.
  split_and!.
  - intros a n Hd Hl. by destruct a.
  - intros i xs n r n' Hrun.
    apply substitute_list_Ok_inv in Hrun as (j & ys & -> & Hall).
    exists j, ys. split_and!; [done | symmetry; by eapply Forall2_length | done].
  - intros i items n r n' Hload Hrun.
    apply substitute_dict_Ok_inv in Hrun as (j & items' & -> & Hall); [|done].
    exists j, items'. split; [done|]. by apply Forall2_items_split.
  - intros i xs Hall n. simpl.
    destruct (mapM_total (substitute entries) xs Hall (S n)) as (ys & n1 & Hys).
    eexists _, _. erewrite bind_Ok by reflexivity. erewrite bind_Ok by done.
    reflexivity.
  - intros i items Hload Hall n. simpl. rewrite Hload.
    destruct (mapM_values_total (substitute entries) items Hall (S n)) as (ys & n1 & Hys).
    eexists _, _. erewrite bind_Ok by reflexivity. erewrite bind_Ok by done.
    reflexivity.
Qed.

Lemma substitute_structural_witness :
  substitute [("base", VInt 1)] (VStr "s") 10 = (Ok (VStr "s"), 10)
  ∧ (∃ j ys, VList 10 [VInt 1; VStr "s"] = VList j ys ∧ length ys = 2
             ∧ Forall2 (runs (substitute [("base", VInt 1)]))
                 [VDict 2 [("load", VStr "base")]; VStr "s"] ys)
  ∧ (∃ j items',
       VDict 10 [("x", VList 11 [VInt 1; VStr "s"]); ("y", VFloat 0)] = VDict j items'
       ∧ keys items' = ["x"; "y"]
       ∧ Forall2 (runs (substitute [("base", VInt 1)]))
           [VList 1 [VDict 2 [("load", VStr "base")]; VStr "s"]; VFloat 0] items'.*2)
  ∧ (∃ r n', substitute [("base", VInt 1)] (VList 1 [VInt 1; VStr "s"]) 10 = (Ok r, n'))
  ∧ (∃ r n', substitute [("base", VInt 1)] (VDict 1 [("x", VInt 1)]) 10 = (Ok r, n')).
Proof.
  pose proof (substitute_structural [("base", VInt 1)])
    as (Hscalar & Hlist & Hdict & Hlist_total & Hdict_total).
  split_and!.
  - by apply Hscalar.
  - apply (Hlist 1 [VDict 2 [("load", VStr "base")]; VStr "s"] 10 _ 11); reflexivity.
  - apply (Hdict 0 [("x", VList 1 [VDict 2 [("load", VStr "base")]; VStr "s"]);
                    ("y", VFloat 0)] 10 _ 12); reflexivity.
  - apply Hlist_total. intros x Hx m.
    repeat (apply elem_of_cons in Hx as [->|Hx]; [eexists _, _; reflexivity|]).
    by apply elem_of_nil in Hx.
  - apply Hdict_total; [reflexivity|]. intros k x Hx m.
    repeat (apply elem_of_cons in Hx as [Hx|Hx]; [simplify_eq; eexists _, _; reflexivity|]).
    by apply elem_of_nil in Hx.
Defined.

(* ===================================================================== *)
(** * OutputValidator *)
(* ===================================================================== *)

(** C7.  On a tuple, whatever it holds, [check_good_output] records one
    failure and nothing else: the failure carries the message about tuples,
    which is not the message about a disallowed type, and the elements of
    the tuple are not visited (a tuple of tuples still gives one failure). *)
Theorem check_good_output_tuple (i : oid) (xs : list value) (tc : TestContext) :
  check_good_output (VTuple i xs) tc
  = (Ok tt, tc ++ [mkFailure tuple_msg [("x", IObject (VTuple i xs))]])
  ∧ tuple_msg ≠ disallowed_msg (VTuple i xs).
Proof.
  split; [reflexivity | discriminate].
Qed.

(* ===================================================================== *)
(** * ConformanceRunner *)
(* ===================================================================== *)

(** Every exception is a [BaseException]. *)
Lemma issubclass_BaseException c : issubclass c BaseException = true.
Proof.
  unfold issubclass. apply bool_decide_eq_true.
  induction c; simpl; repeat constructor; done.
Qed.

(** A class of the capability under test inherits what its base does. *)
Lemma issubclass_UserClass name base d :
  d ≠ UserClass name base →
  issubclass (UserClass name base) d = issubclass base d.
Proof.
  intros Hne. unfold issubclass. apply bool_decide_ext. simpl.
  rewrite elem_of_cons. split; [intros [?|?]; [congruence|done] | by right].
Qed.

(** [NotImplementedError] and its subclasses are not [ImplementationFail]s. *)
Lemma NotImplementedError_not_ImplementationFail e :
  isinstance e NotImplementedError = true → isinstance e ImplementationFail = false.
Proof.
  destruct e as [c msg kw cause]. unfold isinstance. simpl.
  induction c as [| | | | | | | | | | | |name c IH]; intros Hni;
    try (by vm_compute in Hni); try (by vm_compute).
  rewrite issubclass_UserClass in Hni by done.
  rewrite issubclass_UserClass by done. auto.
Qed.

(** C8.  When [loader.load] raises an instance of [NotImplementedError],
    [loadit_] raises that very exception: the test context is as it was
    (nothing is recorded), and what is raised is not [ImplementationFail]. *)
Theorem loadit_unimplemented_propagates
    (loader : Loader) (h : IOHelper) (data : value) (K : pytype)
    (tc : TestContext) (e : exc) :
  load loader h data = Raise e →
  isinstance e NotImplementedError = true →
  loadit_ loader h data K tc = (Raise e, tc)
  ∧ isinstance e ImplementationFail = false.
Proof.
  intros Hload Hni. split.
  - unfold loadit_, bind, try_except, call. rewrite Hload. by rewrite Hni.
  - by apply NotImplementedError_not_ImplementationFail.
Qed.

Lemma loadit_unimplemented_propagates_witness :
  loadit_ (mkLoader "MyLoader" (λ h _, loadfile h "aux.yaml")) IOHelperImp
    (VDict 0 [("elements", VList 1 [])]) (mkType "FiniteSet" (λ _, true)) []
  = (Raise (Exc NotImplementedError [Fmt "aux.yaml"] [] None), [])
  ∧ isinstance (Exc NotImplementedError [Fmt "aux.yaml"] [] None) ImplementationFail = false.
Proof.
  apply (loadit_unimplemented_propagates
           (mkLoader "MyLoader" (λ h _, loadfile h "aux.yaml")) IOHelperImp
           (VDict 0 [("elements", VList 1 [])]) (mkType "FiniteSet" (λ _, true)) []);
    reflexivity.
Defined.

(** C10.  [loadit_] turns every exception of [loader.load] that is not an
    instance of [NotImplementedError] into a recorded failure and
    [ImplementationFail] (with the exception as its cause), also when the
    exception is not an [Exception], as [KeyboardInterrupt] and [SystemExit].
    [dumpit_] does so for instances of [Exception] only: any other exception
    of [fsr.save] leaves [dumpit_] as it is, with nothing recorded. *)
Theorem loadit_catches_BaseException_dumpit_Exception :
  (∀ loader h data K tc e,
     load loader h data = Raise e →
     isinstance e NotImplementedError = false →
     ∃ f, loadit_ loader h data K tc
          = (Raise (Exc ImplementationFail [] [] (Some e)), tc ++ [f]))
  ∧ (∀ fsr h ob tc e,
       save fsr h ob = Raise e →
       isinstance e Exception = false →
       dumpit_ fsr h ob tc = (Raise e, tc))
  ∧ (∀ fsr h ob tc e,
       save fsr h ob = Raise e →
       isinstance e Exception = true →
       ∃ f, dumpit_ fsr h ob tc
            = (Raise (Exc ImplementationFail [] [] (Some e)), tc ++ [f]))
  ∧ (∀ c, c ∈ [KeyboardInterrupt; SystemExit; GeneratorExit] →
          issubclass c Exception = false ∧ issubclass c NotImplementedError = false).
Proof.
  split_and!.
  - intros loader h data K tc e Hload Hni.
    unfold loadit_, bind, try_except, call. rewrite Hload, Hni.
    destruct (isinstance e InvalidFormat); [eexists; reflexivity|].
    unfold isinstance. rewrite issubclass_BaseException. eexists; reflexivity.
  - intros fsr h ob tc e Hsave Hex.
    unfold dumpit_, bind, try_except, call. by rewrite Hsave, Hex.
  - intros fsr h ob tc e Hsave Hex.
    unfold dumpit_, bind, try_except, call. rewrite Hsave, Hex.
    eexists; reflexivity.
  - intros c Hc. repeat (apply elem_of_cons in Hc as [->|Hc]; [by vm_compute|]).
    by apply elem_of_nil in Hc.
Qed.

Lemma loadit_catches_BaseException_dumpit_Exception_witness :
  (∃ f, loadit_ (mkLoader "MyLoader" (λ _ _, Raise (Exc KeyboardInterrupt [] [] None)))
          IOHelperImp VNone (mkType "FiniteSet" (λ _, true)) []
        = (Raise (Exc ImplementationFail [] [] (Some (Exc KeyboardInterrupt [] [] None))),
           [] ++ [f]))
  ∧ dumpit_ (mkSaver "MySaver" (λ _ _, Raise (Exc KeyboardInterrupt [] [] None)))
      IOHelperImp VNone []
    = (Raise (Exc KeyboardInterrupt [] [] None), [])
  ∧ (∃ f, dumpit_ (mkSaver "MySaver" (λ _ _, Raise (Exc ValueError [] [] None)))
            IOHelperImp VNone []
          = (Raise (Exc ImplementationFail [] [] (Some (Exc ValueError [] [] None))),
             [] ++ [f]))
  ∧ issubclass SystemExit Exception = false
  ∧ issubclass SystemExit NotImplementedError = false.
Proof.
  pose proof loadit_catches_BaseException_dumpit_Exception as (Hl & Hd & Hd' & Hc).
  split_and!.
  - apply (Hl (mkLoader "MyLoader" (λ _ _, Raise (Exc KeyboardInterrupt [] [] None))));
      reflexivity.
  - apply (Hd (mkSaver "MySaver" (λ _ _, Raise (Exc KeyboardInterrupt [] [] None))));
      reflexivity.
  - apply (Hd' (mkSaver "MySaver" (λ _ _, Raise (Exc ValueError [] [] None))));
      reflexivity.
  - apply Hc. right. left.
  - apply Hc. right. left.
Defined.

(* ===================================================================== *)
(** * FixtureQuery *)
(* ===================================================================== *)

(** On a dict, the loop of [filter_reqs] keeps the selected items in their
    order: every [res[k] = v] it runs is on a key that [res] does not hold. *)
Lemma filter_reqs_filter (d : dict TestData) (req : string) :
  NoDup (keys d) →
  filter_reqs d req = filter (λ kv, keyset (requires kv.2) = {[ req ]}) d.
Proof.
  unfold filter_reqs. intros Hnd.
  enough (∀ acc, (∀ k, k ∈ keys d → k ∉ keys acc) →
            foldl (λ res '(k, v),
                     let requires := keyset (requires v) in
                     if decide (requires = {[ req ]}) then dict_set k v res else res)
                  acc d
            = acc ++ filter (λ kv, keyset (requires kv.2) = {[ req ]}) d) as Hacc.
  { apply (Hacc []). intros k _. apply not_elem_of_nil. }
  unfold keys in *. induction d as [|[k v] d IH]; intros acc Hfresh.
  - simpl. by rewrite app_nil_r.
  - simpl in Hnd. apply NoDup_cons in Hnd as [Hk Hnd].
    rewrite filter_cons. simpl.
    destruct (decide (keyset (requires v) = {[ req ]})) as [Hsel|Hsel].
    + rewrite (dict_set_fresh acc k v) by (apply Hfresh; left).
      rewrite IH; [by rewrite <- app_assoc | done |].
      intros k' Hk'. rewrite fmap_app, elem_of_app. simpl.
      intros [Hin|Hin%list_elem_of_singleton].
      * by apply (Hfresh k'); [right|].
      * by subst.
    + apply IH; [done|].
      intros k' Hk'. apply Hfresh. by right.
Qed.

(** The result is a dict again. *)
Lemma filter_reqs_NoDup (d : dict TestData) (req : string) :
  NoDup (keys d) → NoDup (keys (filter_reqs d req)).
Proof.
  intros Hnd. rewrite filter_reqs_filter by done.
  unfold keys in *. induction d as [|[k v] d IH]; [constructor|].
  simpl in Hnd. apply NoDup_cons in Hnd as [Hk Hnd]. rewrite filter_cons. simpl.
  destruct (decide (keyset (requires v) = {[ req ]})).
  - simpl. apply NoDup_cons. split; [|auto].
    intros ((k' & t) & -> & Hin%list_elem_of_filter)%list_elem_of_fmap.
    apply Hk, list_elem_of_fmap. exists (k', t). by destruct Hin.
  - auto.
Qed.

(** C4.  For a dict [d] and a requirement [req], [filter_reqs] returns the
    items of [d] whose [requires] has the key set [{req}], and only them: an
    item whose [requires] is empty, or has another key next to [req] or
    instead of it, is left out. *)
Theorem filter_reqs_exact (d : dict TestData) (req : string) :
  NoDup (keys d) →
  (∀ k t, (k, t) ∈ filter_reqs d req ↔ (k, t) ∈ d ∧ requires_exactly req t)
  ∧ NoDup (keys (filter_reqs d req))
  ∧ (∀ k t, (k, t) ∈ d → requires t = [] → (k, t) ∉ filter_reqs d req)
  ∧ (∀ k t r, (k, t) ∈ d → r ∈ keys (requires t) → r ≠ req →
              (k, t) ∉ filter_reqs d req).
Proof.
  intros Hnd. rewrite filter_reqs_filter by done. unfold requires_exactly.
  split_and!.
  - intros k t. by rewrite list_elem_of_filter, (comm and).
  - rewrite <- filter_reqs_filter by done. by apply filter_reqs_NoDup.
  - intros k t _ Hempty (Hsel & _)%list_elem_of_filter. simpl in Hsel.
    unfold keyset in Hsel. rewrite Hempty in Hsel. simpl in Hsel.
    assert (req ∈ (∅ : gset string)) as Hin by (rewrite Hsel; by apply elem_of_singleton).
    by apply not_elem_of_empty in Hin.
  - intros k t r _ Hr Hne (Hsel & _)%list_elem_of_filter. simpl in Hsel.
    apply Hne, (elem_of_singleton (C:=gset string)). rewrite <- Hsel.
    unfold keyset. by apply elem_of_list_to_set.
Qed.

Lemma filter_reqs_exact_witness :
  (∀ k t, (k, t) ∈ filter_reqs sample_corpus "set_union"
          ↔ (k, t) ∈ sample_corpus ∧ requires_exactly "set_union" t)
  ∧ NoDup (keys (filter_reqs sample_corpus "set_union"))
  ∧ (∀ k t, (k, t) ∈ sample_corpus → requires t = [] →
            (k, t) ∉ filter_reqs sample_corpus "set_union")
  ∧ (∀ k t r, (k, t) ∈ sample_corpus → r ∈ keys (requires t) → r ≠ "set_union" →
              (k, t) ∉ filter_reqs sample_corpus "set_union").
Proof.
  apply (filter_reqs_exact sample_corpus "set_union").
  apply (bool_decide_unpack _). vm_compute. exact I.
Defined.

(** C9.  [filter_reqs] selects by the key set of [requires] and by nothing
    else.  On a dict [d] it returns the records of [d] whose [requires] has
    the key set [{req}], and no other record.  On a dict [d'] that has the
    keys of [d] and, under each key, a record whose [requires] has the same
    key set - whatever the values in [requires] are, and whatever the tags,
    the data and the properties are - it selects the same keys, and a record
    of [d'] is selected exactly when the record of [d] under its key is.  So
    a record whose [requires] is [{req: x}] is returned for [req] whatever
    the value [x] is, with [False] as with [True]. *)
Theorem filter_reqs_ignores_values (d d' : dict TestData) (req : string) :
  NoDup (keys d) →
  Forall2 (λ kt kt', kt.1 = kt'.1 ∧ keyset (requires kt.2) = keyset (requires kt'.2))
          d d' →
  (∀ k t, (k, t) ∈ filter_reqs d req ↔ (k, t) ∈ d ∧ keyset (requires t) = {[ req ]})
  ∧ keys (filter_reqs d' req) = keys (filter_reqs d req)
  ∧ (∀ k t t', (k, t) ∈ d → (k, t') ∈ d' →
               ((k, t') ∈ filter_reqs d' req ↔ (k, t) ∈ filter_reqs d req))
  ∧ (∀ k t x, (k, t) ∈ d → requires t = [(req, x)] →
              (k, t) ∈ filter_reqs d req ∧ dict_get k (filter_reqs d req) = Some t).
Proof.
  intros Hnd Hrel.
  assert (keys d' = keys d) as Hkeys.
  { clear -Hrel. unfold keys.
    induction Hrel as [|kt kt' l l' [Hk _] _ IH]; [done|].
    rewrite !fmap_cons. by rewrite Hk, IH. }
  assert (NoDup (keys d')) as Hnd' by by rewrite Hkeys.
  assert (∀ e : dict TestData, NoDup (keys e) →
            ∀ k t, (k, t) ∈ filter_reqs e req
                   ↔ (k, t) ∈ e ∧ keyset (requires t) = {[ req ]}) as Hiff.
  { intros e He k t. rewrite filter_reqs_filter by done.
    by rewrite list_elem_of_filter, (comm and). }
  split_and!.
  - by apply Hiff.
  - rewrite !filter_reqs_filter by done. clear -Hrel. unfold keys.
    induction Hrel as [|[k t] [k' t'] l l' [Hk Hr] _ IH]; [done|].
    rewrite !filter_cons. simpl in Hk, Hr. simpl. rewrite Hr.
    destruct (decide (keyset (requires t') = {[ req ]})); [|done].
    rewrite !fmap_cons. simpl. by rewrite Hk, IH.
  - intros k t t' Hin Hin'. rewrite !Hiff by done.
    assert (keyset (requires t) = keyset (requires t')) as ->; [|tauto].
    pose proof Hin as [j Hj]%list_elem_of_lookup.
    destruct (Forall2_lookup_l _ _ _ _ _ Hrel Hj) as ([k0 t0] & Hj' & Hk & Hr).
    simpl in *. subst k0. rewrite Hr. f_equal. f_equal.
    apply list_elem_of_lookup_2 in Hj'.
    apply (dict_get_NoDup d' k) in Hin', Hj'; [|done..]. congruence.
  - intros k t x Hin Hreq.
    assert ((k, t) ∈ filter_reqs d req) as Hsel.
    { apply Hiff; [done|]. split; [done|].
      unfold keyset. rewrite Hreq. simpl. apply (right_id_L ∅ (∪)). }
    split; [done|]. apply dict_get_NoDup; [|done].
    by apply filter_reqs_NoDup.
Qed.

Lemma filter_reqs_ignores_values_witness :
  (∀ k t, (k, t) ∈ filter_reqs sample_corpus "set_union"
          ↔ (k, t) ∈ sample_corpus ∧ keyset (requires t) = {[ "set_union" ]})
  ∧ keys (filter_reqs revalued_corpus "set_union")
    = keys (filter_reqs sample_corpus "set_union")
  ∧ (∀ k t t', (k, t) ∈ sample_corpus → (k, t') ∈ revalued_corpus →
               ((k, t') ∈ filter_reqs revalued_corpus "set_union"
                ↔ (k, t) ∈ filter_reqs sample_corpus "set_union"))
  ∧ (∀ k t x, (k, t) ∈ sample_corpus → requires t = [("set_union", x)] →
              (k, t) ∈ filter_reqs sample_corpus "set_union"
              ∧ dict_get k (filter_reqs sample_corpus "set_union") = Some t).
Proof.
  apply (filter_reqs_ignores_values sample_corpus revalued_corpus "set_union").
  - apply (bool_decide_unpack _). vm_compute. exact I.
  - repeat constructor; by vm_compute.
Defined.

(** The records of [sample_corpus] and of [revalued_corpus] that are
    returned for [set_union]: the one under ["a"], where [requires] says
    [False] in the first and [True] in the second. *)
Example filter_reqs_sample :
  filter_reqs sample_corpus "set_union"
  = [("a", only_requires [("set_union", VBool false)])]
  ∧ keys (filter_reqs revalued_corpus "set_union") = ["a"].
Proof. by vm_compute. Qed.

(* ===================================================================== *)
(** * FixtureStore: one record *)
(* ===================================================================== *)

Lemma dict_remove_absent {A} (d : dict A) k : dict_get k d = None → dict_remove k d = d.
Proof.
  induction d as [|[k' v'] d IH]; simpl; [done|].
  destruct (decide (k' = k)); [done|]. intros Hd. by rewrite IH.
Qed.

Lemma pop_default_eq {A} k (dflt : A) (d : dict A) :
  pop_default k dflt d = (default dflt (dict_get k d), dict_remove k d).
Proof.
  unfold pop_default, dict_pop. destruct (dict_get k d) eqn:E; simpl; [done|].
  by rewrite dict_remove_absent.
Qed.

(** [add_record], with the [pop]s read off the raw record. *)
Lemma add_record_unfold fn res k v n :
  add_record fn res (k, v) n =
  if dict_has k res then (Raise (duplicate_key k fn), n)
  else match dict_get "data" v with
       | None => (Raise (missing_data k v), S n)
       | Some x =>
           match leftover v with
           | _ :: _ => (Raise (unknown_properties v (leftover v)), S (S (S n)))
           | [] =>
               validate res k x
                 (default (VDict (S n) []) (dict_get "requires" v))
                 (default (VDict (S (S n)) []) (dict_get "properties" v))
                 (default (VDict n []) (dict_get "tags" v))
                 (S (S (S n)))
           end
       end.
Proof.
  unfold add_record. destruct (dict_has k res); [done|].
  unfold bind at 1. unfold new_dict at 1. simpl.
  rewrite pop_default_eq. unfold dict_pop.
  rewrite dict_get_remove_ne by done.
  destruct (dict_get "data" v) as [x|]; [|done].
  unfold bind at 1. unfold new_dict at 1. simpl.
  rewrite pop_default_eq.
  unfold bind at 1. unfold new_dict at 1. simpl.
  rewrite pop_default_eq.
  rewrite !dict_get_remove_ne by done.
  fold (leftover v). by destruct (leftover v).
Qed.

Lemma as_mapping_Ok x n items n' :
  as_mapping x n = (Ok items, n') → n' = n ∧ ∃ i, x = VDict i items.
Proof.
  destruct x; simpl; unfold raise, ret; intros Hrun; simplify_eq. eauto.
Qed.

Lemma check_extra_Ok extra e n u n' :
  check_extra extra e n = (Ok u, n') → extra = ∅ ∧ n' = n.
Proof.
  unfold check_extra. destruct (decide (extra = ∅)); unfold raise, ret;
    intros Hrun; by simplify_eq.
Qed.

Lemma field_items_default f v dflt i items :
  default (VDict dflt []) (dict_get f v) = VDict i items → field_items f v = Some items.
Proof.
  unfold field_items. destruct (dict_get f v) as [x|]; simpl; intros Heq; by simplify_eq.
Qed.

Lemma validate_Ok_inv res k x rq pr tg n res' n' :
  validate res k x rq pr tg n = (Ok res', n') →
  ∃ R P T i1 i2 i3,
    rq = VDict i1 R ∧ pr = VDict i2 P ∧ tg = VDict i3 T
    ∧ keyset R ∖ ALLOWED_REQUIRES = ∅
    ∧ keyset P ∖ ALLOWED_PROPERTIES = ∅
    ∧ keyset T ∖ ALLOWED_TAGS = ∅
    ∧ res' = dict_set k (mkTestData T R x P) res.
Proof.
  unfold validate. intros Hrun.
  apply bind_Ok_inv in Hrun as (R & n1 & (-> & i1 & ->)%as_mapping_Ok & Hrun).
  apply bind_Ok_inv in Hrun as (? & n2 & (HR & ->)%check_extra_Ok & Hrun).
  apply bind_Ok_inv in Hrun as (P & n3 & (-> & i2 & ->)%as_mapping_Ok & Hrun).
  apply bind_Ok_inv in Hrun as (? & n4 & (HP & ->)%check_extra_Ok & Hrun).
  apply bind_Ok_inv in Hrun as (T & n5 & (-> & i3 & ->)%as_mapping_Ok & Hrun).
  apply bind_Ok_inv in Hrun as (? & n6 & (HT & ->)%check_extra_Ok & Hrun).
  unfold ret in Hrun. simplify_eq. by exists R, P, T, i1, i2, i3.
Qed.

(** What a record that the loop takes looks like. *)
Lemma add_record_Ok_inv fn res k v n res' n' :
  add_record fn res (k, v) n = (Ok res', n') →
  (k ∉ keys res) ∧ ∃ t, res' = res ++ [(k, t)] ∧ accepted (k, v) (k, t).
Proof.
  rewrite add_record_unfold.
  destruct (dict_has k res) eqn:Hk; [done|]. apply dict_has_false in Hk.
  destruct (dict_get "data" v) as [x|] eqn:Hdata; [|done].
  destruct (leftover v) eqn:Hleft; [|done].
  intros (R & P & T & i1 & i2 & i3 & HR & HP & HT & HeR & HeP & HeT & ->)%validate_Ok_inv.
  split; [done|]. exists (mkTestData T R x P). split; [by apply dict_set_fresh|].
  unfold accepted. simpl.
  split_and!; try done; by eapply field_items_default.
Qed.

Lemma accepted_keys d ts : Forall2 accepted d ts → keys ts = keys d.
Proof.
  unfold keys. induction 1 as [|kv kt d ts [Hk _] _ IH]; simpl; [done|].
  by f_equal.
Qed.

Lemma foldM_app {S A B} (f : B → A → M S B) b xs ys s :
  foldM f b (xs ++ ys) s = bind (foldM f b xs) (λ b', foldM f b' ys) s.
Proof.
  revert b s. induction xs as [|x xs IH]; intros b s; simpl; [done|].
  unfold bind in *. destruct (f b x s) as [[b'|e] s1]; [|done]. apply IH.
Qed.

(** The items of one file. *)
Lemma add_records_Ok_inv fn d res n res' n' :
  foldM (add_record fn) res d n = (Ok res', n') →
  NoDup (keys res) →
  ∃ ts, res' = res ++ ts ∧ Forall2 accepted d ts ∧ NoDup (keys res').
Proof.
  revert res n. induction d as [|[k v] d IH]; simpl; intros res n Hrun Hnd.
  - unfold ret in Hrun. simplify_eq. exists []. by rewrite app_nil_r.
  - apply bind_Ok_inv in Hrun as (res1 & n1 & Hadd & Hrun).
    apply add_record_Ok_inv in Hadd as (Hk & t & -> & Hacc).
    apply IH in Hrun as (ts & -> & Hall & Hnd').
    + exists ((k, t) :: ts). rewrite <- app_assoc in *. by split_and!; [|constructor|].
    + unfold keys in *. rewrite fmap_app. simpl. apply NoDup_app. split_and!; [done| |].
      * intros k' Hk' ->%list_elem_of_singleton. done.
      * apply NoDup_singleton.
Qed.

(** All the files. *)
Lemma load_records_Ok_inv files res n res' n' :
  load_records files res n = (Ok res', n') →
  NoDup (keys res) →
  ∃ ts, res' = res ++ ts ∧ Forall2 accepted (all_items files) ts ∧ NoDup (keys res').
Proof.
  unfold load_records, all_items.
  revert res n. induction files as [|[fn d] files IH]; simpl; intros res n Hrun Hnd.
  - unfold ret in Hrun. simplify_eq. exists []. by rewrite app_nil_r.
  - apply bind_Ok_inv in Hrun as (res1 & n1 & Hfile & Hrun).
    apply add_records_Ok_inv in Hfile as (ts1 & -> & Hall1 & Hnd1); [|done].
    apply IH in Hrun as (ts2 & -> & Hall2 & Hnd2); [|done].
    exists (ts1 ++ ts2). rewrite <- app_assoc in *. split_and!; [done| |done].
    by apply Forall2_app.
Qed.

(** The loop stops at the first record that raises. *)
Lemma load_records_reach pre fn d1 kv d2 post res0 n res n1 e n2 :
  load_records (pre ++ [(fn, d1)]) res0 n = (Ok res, n1) →
  add_record fn res kv n1 = (Raise e, n2) →
  load_records (pre ++ (fn, d1 ++ kv :: d2) :: post) res0 n = (Raise e, n2).
Proof.
  unfold load_records. rewrite !foldM_app. intros Hpre Hadd.
  apply bind_Ok_inv in Hpre as (r0 & m & Hpre & Hfile).
  erewrite bind_Ok by done. simpl in *.
  apply bind_Ok_inv in Hfile as (r1 & m1 & Hfile & Hret).
  unfold ret in Hret. simplify_eq.
  erewrite bind_Raise; [done|]. rewrite foldM_app.
  erewrite bind_Ok by done. simpl. by erewrite bind_Raise.
Qed.

Lemma get_all_test_data_Raise files n e n' :
  load_records files [] n = (Raise e, n') → get_all_test_data files n = (Raise e, n').
Proof. intros Hload. unfold get_all_test_data. by erewrite bind_Raise. Qed.

(** The loop returns only when no key is read twice. *)
Lemma load_records_Ok_NoDup files n res n' :
  load_records files [] n = (Ok res, n') →
  Forall2 accepted (all_items files) res ∧ NoDup (keys (all_items files)).
Proof.
  intros (ts & -> & Hall & Hnd)%load_records_Ok_inv; [|constructor].
  simpl in *. split; [done|]. by rewrite <- (accepted_keys _ _ Hall).
Qed.

Lemma all_items_app files1 files2 :
  all_items (files1 ++ files2) = all_items files1 ++ all_items files2.
Proof. unfold all_items. by rewrite map_app, concat_app. Qed.

Lemma all_items_elem (files : list fixture_file) f kv :
  f ∈ files → kv ∈ f.2 → kv ∈ all_items files.
Proof.
  unfold all_items. intros Hf Hkv. apply list_elem_of_In, in_concat.
  exists f.2. split; [|by apply list_elem_of_In].
  apply in_map, list_elem_of_In, Hf.
Qed.

Lemma keys_elem {A} (d : dict A) k : k ∈ keys d ↔ ∃ v, (k, v) ∈ d.
Proof.
  unfold keys. rewrite list_elem_of_fmap. split.
  - intros ([k' v] & -> & Hin). by exists v.
  - intros (v & Hin). by exists (k, v).
Qed.

Lemma in_two_files_ordered (files : list fixture_file) k i j fi fj :
  i < j → files !! i = Some fi → files !! j = Some fj →
  k ∈ keys fi.2 → k ∈ keys fj.2 → ¬ NoDup (keys (all_items files)).
Proof.
  intros Hij Hi Hj Hki Hkj Hnd.
  rewrite <- (take_drop_middle files i fi Hi) in Hnd.
  rewrite all_items_app in Hnd. unfold keys in Hnd. rewrite fmap_app in Hnd.
  apply NoDup_app in Hnd as (_ & _ & Hnd).
  change (fi :: drop (S i) files) with ([fi] ++ drop (S i) files) in Hnd.
  rewrite all_items_app, fmap_app in Hnd.
  apply NoDup_app in Hnd as (_ & Hdisj & _).
  apply (Hdisj k).
  - unfold all_items. simpl. by rewrite app_nil_r.
  - apply keys_elem in Hkj as (v & Hv). apply keys_elem. exists v.
    apply (all_items_elem _ fj); [|done].
    apply list_elem_of_lookup. exists (j - S i).
    rewrite lookup_drop. by replace (S i + (j - S i)) with j by lia.
Qed.

Lemma in_two_files_not_NoDup files k :
  in_two_files files k → ¬ NoDup (keys (all_items files)).
Proof.
  intros (i & j & fi & fj & Hne & Hi & Hj & Hki & Hkj).
  destruct (decide (i < j)).
  - by eapply (in_two_files_ordered files k i j).
  - eapply (in_two_files_ordered files k j i); [lia|done..].
Qed.

(* ===================================================================== *)
(** * FixtureStore: duplicate keys *)
(* ===================================================================== *)

(** C5, as stated, fails: key ["a"] is in both files of
    [shared_key_files], but the load stops earlier, at record ["b"] which
    has no [data]; the error raised is about ["b"] and names ["a"] nowhere. *)
Lemma duplicate_key_preempted :
  in_two_files shared_key_files "a"
  ∧ get_all_test_data shared_key_files 0
    = (Raise (missing_data "b" [("tags", VDict 0 [("set", VBool true)])]), 1)
  ∧ ¬ names (missing_data "b" [("tags", VDict 0 [("set", VBool true)])]) "a".
Proof.
  split_and!.
  - exists 0, 1, ("one.yaml", [("b", [("tags", VDict 0 [("set", VBool true)])]);
                               ("a", [("data", VInt 1)])]),
      ("two.yaml", [("a", [("data", VInt 2)])]).
    split_and!; [lia | done | done | |]; simpl.
    + right. left.
    + left.
  - reflexivity.
  - unfold names. simpl. intros [Hin|[Hin|[kw Hin]]].
    + by apply elem_of_nil in Hin.
    + by apply elem_of_nil in Hin.
    + repeat (apply elem_of_cons in Hin as [Hin|Hin]; [by simplify_eq|]).
      by apply elem_of_nil in Hin.
Qed.

(** C5, amended.  When a key is in two different files, [get_all_test_data]
    raises and returns no corpus, so neither occurrence wins.  When the load
    gets as far as an occurrence of the key in a later file (every record
    before it is accepted), what is raised there is the duplicate-key error,
    whose message names the key and that file. *)
Theorem duplicate_key_is_error (files : list fixture_file) (n : alloc) (k : string) :
  in_two_files files k →
  (∃ e n', get_all_test_data files n = (Raise e, n'))
  ∧ (∀ pre fn d1 v d2 post res n1,
       files = pre ++ (fn, d1 ++ (k, v) :: d2) :: post →
       k ∈ keys (all_items pre) →
       load_records (pre ++ [(fn, d1)]) [] n = (Ok res, n1) →
       get_all_test_data files n = (Raise (duplicate_key k fn), n1)
       ∧ names (duplicate_key k fn) k).
Proof.
  intros Htwo. split.
  - destruct (load_records files [] n) as [[res|e] n'] eqn:Hload.
    + apply load_records_Ok_NoDup in Hload as [_ Hnd].
      by apply in_two_files_not_NoDup in Htwo.
    + exists e, n'. by apply get_all_test_data_Raise.
  - intros pre fn d1 v d2 post res n1 -> Hk Hload. split.
    + apply get_all_test_data_Raise.
      eapply load_records_reach; [done|].
      rewrite add_record_unfold.
      apply load_records_Ok_NoDup in Hload as [Hall _].
      apply accepted_keys in Hall.
      assert (k ∈ keys res) as Hin.
      { rewrite Hall, all_items_app. unfold keys in *. rewrite fmap_app.
        apply elem_of_app. by left. }
      apply dict_has_true in Hin. by rewrite Hin.
    + left. simpl. right. left.
Qed.

Lemma duplicate_key_is_error_witness :
  in_two_files duplicate_files "a"
  ∧ get_all_test_data duplicate_files 0 = (Raise (duplicate_key "a" "two.yaml"), 9)
  ∧ names (duplicate_key "a" "two.yaml") "a".
Proof.
  assert (in_two_files duplicate_files "a") as Htwo.
  { exists 0, 1, ("one.yaml", [("b", [("data", VInt 0)]); ("a", [("data", VInt 1)])]),
      ("two.yaml", [("c", [("data", VInt 3)]); ("a", [("data", VInt 2)])]).
    split_and!; [lia | done | done | |]; simpl.
    - right. left.
    - right. left. }
  split; [done|].
  destruct (duplicate_key_is_error duplicate_files 0 "a" Htwo) as [_ Hdup].
  eapply (Hdup [("one.yaml", [("b", [("data", VInt 0)]); ("a", [("data", VInt 1)])])]
            "two.yaml" [("c", [("data", VInt 3)])] [("data", VInt 2)] [] []).
  - reflexivity.
  - simpl. right. left.
  - vm_compute. reflexivity.
Defined.

(* ===================================================================== *)
(** * FixtureStore: whitelists *)
(* ===================================================================== *)

Lemma validate_dicts res k x i1 R i2 P i3 T n :
  validate res k x (VDict i1 R) (VDict i2 P) (VDict i3 T) n =
  if decide (keyset R ∖ ALLOWED_REQUIRES = ∅ ∧ keyset P ∖ ALLOWED_PROPERTIES = ∅
             ∧ keyset T ∖ ALLOWED_TAGS = ∅)
  then (Ok (dict_set k (mkTestData T R x P) res), n)
  else (Raise (first_extra k R P T), n).
Proof.
  unfold validate, first_extra, bind, as_mapping, check_extra, ret, raise.
  destruct (decide (keyset R ∖ ALLOWED_REQUIRES = ∅)) as [HR|HR].
  2: { rewrite decide_False; [done | by intros [? _]]. }
  destruct (decide (keyset P ∖ ALLOWED_PROPERTIES = ∅)) as [HP|HP].
  2: { rewrite decide_False; [done | by intros (_ & ? & _)]. }
  destruct (decide (keyset T ∖ ALLOWED_TAGS = ∅)) as [HT|HT].
  - by rewrite decide_True.
  - rewrite decide_False; [done | by intros (_ & _ & ?)].
Qed.

Lemma field_items_Some f v items dflt :
  field_items f v = Some items →
  ∃ i, default (VDict dflt []) (dict_get f v) = VDict i items.
Proof.
  unfold field_items. destruct (dict_get f v) as [[]|]; simpl; intros Heq;
    simplify_eq; eauto.
Qed.

Lemma field_items_dict f v i items :
  dict_get f v = Some (VDict i items) → field_items f v = Some items.
Proof. unfold field_items. by intros ->. Qed.

Lemma extra_key_not_empty (items : dict value) (allowed : gset string) x :
  x ∈ keys items → x ∉ allowed → keyset items ∖ allowed ≠ ∅.
Proof.
  intros Hx Hnot Hempty. apply (not_elem_of_empty (C:=gset string) x).
  rewrite <- Hempty. apply elem_of_difference. split; [|done].
  unfold keyset. by apply elem_of_list_to_set.
Qed.

(** C6, as stated, fails: record ["a"] of [preempted_files] has the key
    ["bogus"] in [tags], outside the whitelist, and the load raises, but at
    record ["z"], which is read first and has no [data]: that error lists no
    key set at all. *)
Lemma extra_key_preempted :
  ("a", extra_tag_record) ∈ all_items preempted_files
  ∧ dict_get "tags" extra_tag_record
    = Some (VDict 1 [("set", VBool true); ("bogus", VBool true)])
  ∧ keyset [("set", VBool true); ("bogus", VBool true)] ∖ ALLOWED_TAGS = {[ "bogus" ]}
  ∧ get_all_test_data preempted_files 0
    = (Raise (missing_data "z" [("tags", VDict 0 [("set", VBool true)])]), 1)
  ∧ ∀ extra, ¬ lists_keys (missing_data "z" [("tags", VDict 0 [("set", VBool true)])]) extra.
Proof.
  split_and!.
  - simpl. right. left.
  - reflexivity.
  - by vm_compute.
  - reflexivity.
  - unfold lists_keys. simpl. intros extra [kw Hin].
    repeat (apply elem_of_cons in Hin as [Hin|Hin]; [by simplify_eq|]).
    by apply elem_of_nil in Hin.
Qed.

(** The three whitelist checks run in the order of the code: the record of
    [extra_keys_files] has extra keys in [requires] and in [tags]; the error
    is the one of [requires] and lists [{"foo"}], not the extra key of
    [tags]. *)
Lemma whitelist_checks_in_order :
  keyset [("set", VBool true); ("bogus", VBool true)] ∖ ALLOWED_TAGS = {[ "bogus" ]}
  ∧ get_all_test_data extra_keys_files 0
    = (Raise (extra_requires_error "a" {[ "foo" ]}), 6)
  ∧ ¬ lists_keys (extra_requires_error "a" {[ "foo" ]}) {[ "bogus" ]}.
Proof.
  split_and!.
  - by vm_compute.
  - by vm_compute.
  - unfold lists_keys. simpl. intros [kw Hin].
    repeat (apply elem_of_cons in Hin as [Hin|Hin];
            [injection Hin as _ Hin; by vm_compute in Hin|]).
    by apply elem_of_nil in Hin.
Qed.

(** C6, amended.  When some record has, in its [tags], [requires] or
    [properties] mapping, a key outside the whitelist of that field,
    [get_all_test_data] raises and returns no corpus.  When the load gets as
    far as the whitelist checks of that record (the records before it are
    accepted, its key is new, it has [data] and no unknown field), the error
    is the one of the first check that fails, in the order [requires],
    [properties], [tags], and it lists the extra keys of that field: the key
    set of the mapping minus the whitelist. *)
Theorem extra_key_is_error
    (files : list fixture_file) (n : alloc) (k : string) (v : dict value)
    (f : string) (i : oid) (items : dict value) (x : string) :
  (k, v) ∈ all_items files →
  f ∈ ["tags"; "requires"; "properties"] →
  dict_get f v = Some (VDict i items) →
  x ∈ keys items →
  x ∉ allowed_for f →
  (∃ e n', get_all_test_data files n = (Raise e, n'))
  ∧ (∀ pre fn d1 d2 post res n1 d R P T,
       files = pre ++ (fn, d1 ++ (k, v) :: d2) :: post →
       load_records (pre ++ [(fn, d1)]) [] n = (Ok res, n1) →
       k ∉ keys res →
       dict_get "data" v = Some d →
       leftover v = [] →
       field_items "requires" v = Some R →
       field_items "properties" v = Some P →
       field_items "tags" v = Some T →
       get_all_test_data files n = (Raise (first_extra k R P T), S (S (S n1)))
       ∧ lists_keys (first_extra k R P T) (first_extra_keys R P T)
       ∧ first_extra_keys R P T ≠ ∅).
Proof.
  intros Hin Hf Hfield Hx Hnot.
  assert (keyset items ∖ allowed_for f ≠ ∅) as Hextra by by eapply extra_key_not_empty.
  apply field_items_dict in Hfield.
  assert (∀ R P T,
            field_items "requires" v = Some R →
            field_items "properties" v = Some P →
            field_items "tags" v = Some T →
            ¬ (keyset R ∖ ALLOWED_REQUIRES = ∅ ∧ keyset P ∖ ALLOWED_PROPERTIES = ∅
               ∧ keyset T ∖ ALLOWED_TAGS = ∅)) as Hsome.
  { intros R P T HR HP HT (HeR & HeP & HeT).
    repeat (apply elem_of_cons in Hf as [->|Hf]; [by simplify_eq|]).
    by apply elem_of_nil in Hf. }
  split.
  - destruct (load_records files [] n) as [[res|e] n'] eqn:Hload.
    + apply load_records_Ok_NoDup in Hload as [Hall _].
      apply list_elem_of_lookup in Hin as [j Hj].
      destruct (Forall2_lookup_l _ _ _ _ _ Hall Hj)
        as ([k' t] & _ & _ & _ & _ & HR & HP & HT & HeR & HeP & HeT).
      simpl in *. by destruct (Hsome _ _ _ HR HP HT).
    + exists e, n'. by apply get_all_test_data_Raise.
  - intros pre fn d1 d2 post res n1 d R P T -> Hload Hk Hdata Hleft HR HP HT.
    specialize (Hsome R P T HR HP HT).
    split_and!.
    + apply get_all_test_data_Raise.
      eapply load_records_reach; [done|].
      rewrite add_record_unfold.
      apply dict_has_false in Hk. rewrite Hk, Hdata, Hleft.
      destruct (field_items_Some _ _ _ (S n1) HR) as [i1 ->].
      destruct (field_items_Some _ _ _ (S (S n1)) HP) as [i2 ->].
      destruct (field_items_Some _ _ _ n1 HT) as [i3 ->].
      rewrite validate_dicts. by rewrite decide_False.
    + unfold lists_keys, first_extra, first_extra_keys.
      repeat case_decide; simpl; eexists; left.
    + unfold first_extra_keys. repeat case_decide; naive_solver.
Qed.

Lemma extra_key_is_error_witness :
  get_all_test_data extra_keys_files 0
  = (Raise (first_extra "a"
              [("set_union", VBool true); ("foo", VBool true)] []
              [("set", VBool true); ("bogus", VBool true)]), 6)
  ∧ lists_keys (first_extra "a"
                  [("set_union", VBool true); ("foo", VBool true)] []
                  [("set", VBool true); ("bogus", VBool true)])
      (first_extra_keys [("set_union", VBool true); ("foo", VBool true)] []
         [("set", VBool true); ("bogus", VBool true)])
  ∧ first_extra_keys [("set_union", VBool true); ("foo", VBool true)] []
      [("set", VBool true); ("bogus", VBool true)] ≠ ∅.
Proof.
  assert (("a", extra_keys_record) ∈ all_items extra_keys_files) as Hin
    by (simpl; right; left).
  assert ("bogus" ∉ allowed_for "tags") as Hnot
    by (apply (bool_decide_unpack _); vm_compute; exact I).
  destruct (extra_key_is_error extra_keys_files 0 "a" extra_keys_record "tags" 0
              [("set", VBool true); ("bogus", VBool true)] "bogus" Hin
              ltac:(left) eq_refl ltac:(simpl; right; left) Hnot) as [_ Hlist].
  eapply (Hlist [] "one.yaml" [("ok", [("data", VInt 0)])] [] []).
  - reflexivity.
  - vm_compute. reflexivity.
  - apply (bool_decide_unpack _). vm_compute. exact I.
  - reflexivity.
  - reflexivity.
  - reflexivity.
  - reflexivity.
  - reflexivity.
Defined.

(* ===================================================================== *)
(** * FixtureStore and ReferenceResolver together *)
(* ===================================================================== *)

Lemma add_context_Ok_inv {A} k (m : M alloc A) n a n' :
  add_context k m n = (Ok a, n') → m n = (Ok a, n').
Proof.
  unfold add_context. destruct (m n) as [[a'|e] n1]; [by intros ?; simplify_eq|].
  destruct (isinstance e ZValueError); [done|]. by destruct (isinstance e TypeError).
Qed.

(** The second loop assigns to each record what [substitute] returns on its
    [data], with the [entries] built before the loop. *)
Lemma resolve_records_Ok_inv res n res' n' :
  resolve_records res n = (Ok res', n') →
  Forall2 (λ kt kt',
             kt.1 = kt'.1
             ∧ runs (substitute (map (λ '(k, v), (k, data v)) res))
                 (data kt.2) (data kt'.2))
          res res'.
Proof.
  unfold resolve_records. intros Hall%mapM_Ok_inv.
  eapply Forall2_impl; [done|]. intros [k t] kt' (m & m' & Hrun).
  apply bind_Ok_inv in Hrun as (x & m1 & Hsub%add_context_Ok_inv & Hret).
  unfold ret in Hret. simplify_eq. simpl. split; [done|]. by eexists _, _.
Qed.

Lemma entries_raw (l : dict (dict value)) (ts : dict TestData) :
  Forall2 accepted l ts →
  map (λ '(k, v), (k, data v)) ts
  = omap (λ '(k, v), match dict_get "data" v with
                     | Some x => Some (k, x)
                     | None => None
                     end) l.
Proof.
  induction 1 as [|[k v] [k' t] l ts (Hk & Hdata & _) _ IH]; simpl in *; [done|].
  rewrite Hdata. simpl. by rewrite IH, Hk.
Qed.

Lemma keys_map_data (ts : dict TestData) :
  keys (map (λ '(k, v), (k, data v)) ts) = keys ts.
Proof.
  unfold keys. induction ts as [|[k t] ts IH]; simpl; [done|]. by f_equal.
Qed.

Lemma dict_get_related {A B} (R : A → B → Prop) (d : dict A) (d' : dict B) k x :
  Forall2 (λ kx ky, kx.1 = ky.1 ∧ R kx.2 ky.2) d d' →
  dict_get k d = Some x → ∃ y, dict_get k d' = Some y ∧ R x y.
Proof.
  induction 1 as [|[k1 x1] [k2 y2] d d' [Hk HR] _ IH]; simpl in *; [done|].
  subst k2. destruct (decide (k1 = k)); [|done].
  intros Heq. simplify_eq. eauto.
Qed.

Lemma at_path_raw_app a p q b :
  at_path_raw a p = Some b → at_path_raw a (p ++ q) = at_path_raw b q.
Proof.
  revert a. induction p as [|s p IH]; simpl; intros a Hp; [by simplify_eq|].
  destruct (child_raw a s); [auto | done].
Qed.

(** [substitute] keeps the positions that are not below a reference: what it
    returns has, at such a position, what it returns on the node there. *)
Lemma substitute_at_path entries p a r x :
  runs (substitute entries) a r →
  at_path a p = Some x →
  ∃ y, at_path_raw r p = Some y ∧ runs (substitute entries) x y.
Proof.
  revert a r. induction p as [|s p IH]; simpl; intros a r Hrun Hp.
  - simplify_eq. eauto.
  - destruct (child a s) as [b|] eqn:Hchild; [|done].
    destruct Hrun as (m & m' & Hrun).
    destruct a as [| | | | | |j xs|j items| |]; try done; destruct s as [k|ix]; try done;
      simpl in Hchild.
    + apply substitute_list_Ok_inv in Hrun as (j' & ys & -> & Hall).
      destruct (Forall2_lookup_l _ _ _ _ _ Hall Hchild) as (b' & Hb' & Hbb').
      destruct (IH b b' Hbb' Hp) as (y & Hy & Hxy).
      exists y. simpl. by rewrite Hb'.
    + unfold dict_has in Hchild.
      destruct (dict_get "load" items) eqn:Hload; [done|].
      apply substitute_dict_Ok_inv in Hrun as (j' & items' & -> & Hall); [|done].
      destruct (dict_get_related _ _ _ _ _ Hall Hchild) as (b' & Hb' & Hbb').
      destruct (IH b b' Hbb' Hp) as (y & Hy & Hxy).
      exists y. simpl. by rewrite Hb'.
Qed.

(** C3.  After [get_all_test_data], the [data] of a record [kA] is what
    [substitute] returns, once, on its raw data, with the raw (unresolved)
    data of every record as [entries].  So where the raw data of [kA] has a
    reference to [kB], the resolved data of [kA] has the raw data of [kB]
    as the files give it, and every reference inside the data of [kB] is
    still there, unresolved. *)
Theorem references_resolve_once
    (files : list fixture_file) (n n' : alloc) (res : dict TestData)
    (kA kB : string) (vA vB : dict value) (dA dB : value)
    (p : list step) (i : oid) (items : dict value) :
  get_all_test_data files n = (Ok res, n') →
  (kA, vA) ∈ all_items files →
  dict_get "data" vA = Some dA →
  at_path dA p = Some (VDict i items) →
  dict_get "load" items = Some (VStr kB) →
  (kB, vB) ∈ all_items files →
  dict_get "data" vB = Some dB →
  ∃ tA, dict_get kA res = Some tA
        ∧ runs (substitute (raw_entries files)) dA (data tA)
        ∧ dict_get kB (raw_entries files) = Some dB
        ∧ at_path_raw (data tA) p = Some dB
        ∧ ∀ q node, is_reference node = true →
                    at_path_raw dB q = Some node →
                    at_path_raw (data tA) (p ++ q) = Some node.
Proof.
  intros Hrun HA HdA Hp Hload HB HdB.
  unfold get_all_test_data in Hrun.
  apply bind_Ok_inv in Hrun as (ts & n1 & Hrecords & Hresolve).
  apply load_records_Ok_NoDup in Hrecords as [Hacc Hnd].
  pose proof (accepted_keys _ _ Hacc) as Hkeys.
  apply resolve_records_Ok_inv in Hresolve.
  rewrite (entries_raw _ _ Hacc) in Hresolve. fold (raw_entries files) in Hresolve.
  (* the entry of [kB] *)
  assert (dict_get kB (raw_entries files) = Some dB) as HentryB.
  { apply list_elem_of_lookup in HB as [j Hj].
    destruct (Forall2_lookup_l _ _ _ _ _ Hacc Hj) as ([k tB] & HtB & Hk & Hdata & _).
    simpl in *. subst k. unfold raw_entries. rewrite <- (entries_raw _ _ Hacc).
    apply dict_get_NoDup.
    - by rewrite keys_map_data, Hkeys.
    - apply list_elem_of_fmap. exists (kB, tB). split.
      + simpl. congruence.
      + by eapply list_elem_of_lookup_2. }
  (* the record of [kA] *)
  apply list_elem_of_lookup in HA as [j Hj].
  destruct (Forall2_lookup_l _ _ _ _ _ Hacc Hj) as ([k tA0] & HtA0 & Hk & Hdata & _).
  simpl in *. subst k.
  destruct (Forall2_lookup_l _ _ _ _ _ Hresolve HtA0) as ([k tA] & HtA & Hk & HrunA).
  simpl in *. subst k.
  assert (data tA0 = dA) as HdA0 by congruence. rewrite HdA0 in HrunA.
  exists tA. split_and!.
  - apply dict_get_NoDup; [|by eapply list_elem_of_lookup_2].
    assert (keys res = keys ts) as ->; [|by rewrite Hkeys].
    unfold keys. clear -Hresolve.
    induction Hresolve as [|[k1 t1] [k2 t2] l l' [Hk _] _ IH]; simpl in *; [done|].
    by f_equal.
  - done.
  - done.
  - destruct (substitute_at_path _ _ _ _ _ HrunA Hp) as (y & Hy & (m & m' & Hxy)).
    rewrite (substitute_load_entry _ _ _ _ _ _ Hload HentryB) in Hxy.
    by simplify_eq.
  - intros q node _ Hq.
    destruct (substitute_at_path _ _ _ _ _ HrunA Hp) as (y & Hy & (m & m' & Hxy)).
    rewrite (substitute_load_entry _ _ _ _ _ _ Hload HentryB) in Hxy.
    simplify_eq. by rewrite (at_path_raw_app _ _ _ _ Hy).
Qed.

Lemma references_resolve_once_witness :
  ∃ tA, dict_get "A" chained_corpus = Some tA
        ∧ runs (substitute (raw_entries chained_files))
            (VList 20 [VInt 0; VDict 21 [("load", VStr "B")]]) (data tA)
        ∧ dict_get "B" (raw_entries chained_files)
          = Some (VDict 10 [("x", VDict 11 [("load", VStr "C")])])
        ∧ at_path_raw (data tA) [Index 1]
          = Some (VDict 10 [("x", VDict 11 [("load", VStr "C")])])
        ∧ ∀ q node, is_reference node = true →
                    at_path_raw (VDict 10 [("x", VDict 11 [("load", VStr "C")])]) q
                    = Some node →
                    at_path_raw (data tA) ([Index 1] ++ q) = Some node.
Proof.
  eapply (references_resolve_once chained_files 100 _ chained_corpus "A" "B"
            [("data", VList 20 [VInt 0; VDict 21 [("load", VStr "B")]])]
            [("data", VDict 10 [("x", VDict 11 [("load", VStr "C")])])]
            _ _ [Index 1] 21 [("load", VStr "B")]).
  - vm_compute. reflexivity.
  - simpl. right. right. left.
  - reflexivity.
  - reflexivity.
  - reflexivity.
  - simpl. right. left.
  - reflexivity.
Defined.

(* ===================================================================== *)
(** * Runs on sample data *)
(* ===================================================================== *)

(** Two files, ["base"] with [data: {x: 1}] and ["derived"] with
    [data: {load: base}]: after the load the data of ["derived"] is the
    data of ["base"], the same object. *)
Example base_and_derived :
  (get_all_test_data
     [("base.yaml", [("base", [("data", VDict 1 [("x", VInt 1)])])]);
      ("derived.yaml", [("derived", [("data", VDict 2 [("load", VStr "base")])])])]
     10).1
  = Ok [("base", {| tags := []; requires := [];
                    data := VDict 16 [("x", VInt 1)]; properties := [] |});
        ("derived", {| tags := []; requires := [];
                       data := VDict 1 [("x", VInt 1)]; properties := [] |})].
Proof. reflexivity. Qed.

(** A reference to a key that no file defines: [substitute] raises the
    [ZValueError] of line 166. *)
Example unknown_reference_substitute :
  substitute [("a", VInt 0)] (VDict 2 [("load", VStr "nowhere")]) 10
  = (Raise (Exc ZValueError [Lit "Cannot find entry to load"]
              [("a", AValue (VDict 2 [("load", VStr "nowhere")]))] None), 10).
Proof. reflexivity. Qed.

(** A load value that cannot be hashed: [loadit not in entries] raises the
    [TypeError] of [hash], which names the list inside the tuple, and the
    set. *)
Example unhashable_reference :
  substitute [] (VDict 1 [("load", VTuple 2 [VInt 1; VList 3 []])]) 10
  = (Raise (Exc TypeError [Lit "unhashable type: "; FmtRepr "list"] [] None), 10)
  ∧ substitute [] (VDict 1 [("load", VObject 2 "set")]) 10
    = (Raise (Exc TypeError [Lit "unhashable type: "; FmtRepr "set"] [] None), 10).
Proof. split; reflexivity. Qed.

(** With such a reference in a file, the load stops with an error of that
    class and message. *)
Example unknown_reference :
  match (get_all_test_data
           [("one.yaml", [("a", [("data", VDict 2 [("load", VStr "nowhere")])])])] 10).1 with
  | Raise e => exc_cls e = ZValueError ∧ exc_msg e = [Lit "Cannot find entry to load"]
  | Ok _ => False
  end.
Proof. by vm_compute. Qed.

(** [{"a": 1, "b": [1, 2.0, "x", True]}] has no violation. *)
Example good_output :
  check_good_output
    (VDict 1 [("a", VInt 1);
              ("b", VList 2 [VInt 1; VFloat 4611686018427387904; VStr "x"; VBool true])]) []
  = (Ok tt, []).
Proof. reflexivity. Qed.

(** An object of another class: one failure, with the name of the class. *)
Example other_class :
  check_good_output (VList 1 [VInt 1; VObject 2 "Fraction"]) []
  = (Ok tt, [mkFailure (disallowed_msg (VObject 2 "Fraction"))
               [("x", IObject (VObject 2 "Fraction"))]]).
Proof. reflexivity. Qed.

(** [save] returns a tuple: the failure is recorded and raised at the end of
    the verb. *)
Example save_returns_tuple :
  dumpit_ (mkSaver "MySaver" (λ _ _, Ok (VTuple 5 [VInt 1; VInt 2]))) IOHelperImp VNone []
  = (Raise (Exc ImplementationFail [] [] None),
     [mkFailure tuple_msg [("x", IObject (VTuple 5 [VInt 1; VInt 2]))]]).
Proof. reflexivity. Qed.

(* ===================================================================== *)
(** * More on [substitute] *)
(* ===================================================================== *)

(** Induction on a value, with the property known of the elements of a
    sequence and of the values of a mapping. *)
Lemma value_ind_nested (P : value → Prop) :
  (∀ a, is_dict a = false → is_list a = false → is_tuple a = false → P a) →
  (∀ i xs, Forall P xs → P (VList i xs)) →
  (∀ i items, Forall (λ kv, P kv.2) items → P (VDict i items)) →
  (∀ i xs, Forall P xs → P (VTuple i xs)) →
  ∀ a, P a.
Proof.
  intros Hleaf Hlist Hdict Htuple. fix IH 1. intros a.
  destruct a as [| | | | | |i xs|i items|i xs|]; try (by apply Hleaf).
  - apply Hlist. induction xs as [|x xs IHxs]; constructor; [apply IH | apply IHxs].
  - apply Hdict. induction items as [|[k x] items IHitems]; constructor;
      [apply IH | apply IHitems].
  - apply Htuple. induction xs as [|x xs IHxs]; constructor; [apply IH | apply IHxs].
Qed.

Lemma bind_Raise_inv {S A B} (m : M S A) (k : A → M S B) s e s' :
  bind m k s = (Raise e, s') →
  m s = (Raise e, s') ∨ ∃ a s1, m s = (Ok a, s1) ∧ k a s1 = (Raise e, s').
Proof.
  unfold bind. destruct (m s) as [[a|e'] s1]; [eauto|]. intros Heq. left. by simplify_eq.
Qed.

(** A comprehension raises what [f] raises on one of the elements. *)
Lemma mapM_Raise_inv {S A B} (f : A → M S B) xs s e s' :
  mapM f xs s = (Raise e, s') → ∃ x m, x ∈ xs ∧ f x m = (Raise e, s').
Proof.
  revert s. induction xs as [|x xs IH]; simpl; intros s Hrun; [done|].
  apply bind_Raise_inv in Hrun as [Hx|(y & s1 & Hy & Hrun)].
  - exists x, s. split; [left | done].
  - apply bind_Raise_inv in Hrun as [Hrest|(ys & s2 & Hys & Hret)]; [|done].
    destruct (IH _ Hrest) as (x' & m & Hin & Hx'). exists x', m. split; [by right | done].
Qed.

Lemma mapM_values_Raise_inv {S A B} (f : A → M S B) (d : dict A) s e s' :
  mapM_values f d s = (Raise e, s') → ∃ k x m, (k, x) ∈ d ∧ f x m = (Raise e, s').
Proof.
  revert s. induction d as [|[k x] d IH]; simpl; intros s Hrun; [done|].
  apply bind_Raise_inv in Hrun as [Hx|(y & s1 & Hy & Hrun)].
  - exists k, x, s. split; [left | done].
  - apply bind_Raise_inv in Hrun as [Hrest|(ys & s2 & Hys & Hret)]; [|done].
    destruct (IH _ Hrest) as (k' & x' & m & Hin & Hx'). exists k', x', m.
    split; [by right | done].
Qed.

(** A comprehension returns exactly when [f] returns on every element, if
    whether [f] returns does not depend on the state. *)
Lemma mapM_returns_iff {S A B} (f : A → M S B) (Q : A → Prop) xs :
  Forall (λ x, ∀ s, (∃ y s', f x s = (Ok y, s')) ↔ Q x) xs →
  ∀ s, (∃ ys s', mapM f xs s = (Ok ys, s')) ↔ Forall Q xs.
Proof.
  induction 1 as [|x xs Hx _ IH]; intros s; simpl.
  - split; [constructor | by exists [], s].
  - split.
    + intros (ys & s' & Hrun).
      apply bind_Ok_inv in Hrun as (y & s1 & Hy & Hrun).
      apply bind_Ok_inv in Hrun as (ys' & s2 & Hys & _).
      constructor; [apply (Hx s) | apply (IH s1)]; eauto.
    + intros [(y & s1 & Hy)%(Hx s) Hrest]%Forall_cons.
      apply (IH s1) in Hrest as (ys & s2 & Hys).
      exists (y :: ys), s2. erewrite bind_Ok by done. by erewrite bind_Ok.
Qed.

Lemma mapM_values_returns_iff {S A B} (f : A → M S B) (Q : A → Prop) (d : dict A) :
  Forall (λ kv, ∀ s, (∃ y s', f kv.2 s = (Ok y, s')) ↔ Q kv.2) d →
  ∀ s, (∃ d' s', mapM_values f d s = (Ok d', s')) ↔ Forall (λ kv, Q kv.2) d.
Proof.
  induction 1 as [|[k x] d Hx _ IH]; intros s; simpl in *.
  - split; [constructor | by exists [], s].
  - split.
    + intros (ys & s' & Hrun).
      apply bind_Ok_inv in Hrun as (y & s1 & Hy & Hrun).
      apply bind_Ok_inv in Hrun as (ys' & s2 & Hys & _).
      constructor; [apply (Hx s) | apply (IH s1)]; eauto.
    + intros [(y & s1 & Hy)%(Hx s) Hrest]%Forall_cons.
      apply (IH s1) in Hrest as (ys & s2 & Hys).
      exists ((k, y) :: ys), s2. erewrite bind_Ok by done. by erewrite bind_Ok.
Qed.

Lemma forallb_Forall {A} (f : A → bool) xs :
  forallb f xs = true ↔ Forall (λ x, f x = true) xs.
Proof.
  induction xs as [|x xs IH]; simpl.
  - split; [constructor | done].
  - rewrite andb_true_iff, Forall_cons, IH. done.
Qed.

(** Whether [substitute] returns does not depend on the allocator: it
    returns exactly on the resolvable trees. *)
Lemma substitute_returns entries a :
  ∀ n, (∃ r n', substitute entries a n = (Ok r, n')) ↔ resolvable entries a = true.
Proof.
  induction a as [a Hd Hl Ht|i xs IH|i items IH|i xs IH] using value_ind_nested; intros n.
  - destruct a; try done; simpl; (split; [done | intros _; by eexists _, _]).
  - simpl. rewrite forallb_Forall.
    rewrite <- (mapM_returns_iff (substitute entries) _ xs IH (S n)). split.
    + intros (r & n' & Hrun). apply bind_Ok_inv in Hrun as (j & n0 & Hj & Hrun).
      unfold fresh in Hj. simplify_eq.
      apply bind_Ok_inv in Hrun as (ys & n1 & Hys & _). eauto.
    + intros (ys & n1 & Hys). eexists _, _.
      erewrite bind_Ok by reflexivity. erewrite bind_Ok by done. reflexivity.
  - simpl. destruct (dict_get "load" items) as [loadit|] eqn:Hload.
    + unfold lookup_entry.
      assert (∀ x : value,
                (∃ r n', (if hashable x then raise (cannot_find (VDict i items))
                          else raise (unhashable x)) n = (@Ok value r, n')) ↔ false = true)
        as Hno.
      { intros x. destruct (hashable x); (split; [by intros (? & ? & ?) | done]). }
      destruct loadit as [| | | |key| | | | |]; try apply Hno.
      unfold dict_has. destruct (dict_get key entries); simpl.
      * split; [done | intros _; by eexists _, _].
      * split; [by intros (? & ? & ?) | done].
    + rewrite forallb_Forall.
      assert (Forall (λ kv : string * value, (let '(_, v) := kv in resolvable entries v) = true) items
              ↔ Forall (λ kv, resolvable entries kv.2 = true) items) as ->.
      { apply Forall_proper; [|done]. by intros [k v]. }
      rewrite <- (mapM_values_returns_iff (substitute entries)
                    (λ x, resolvable entries x = true) items IH (S n)). split.
      * intros (r & n' & Hrun). apply bind_Ok_inv in Hrun as (j & n0 & Hj & Hrun).
        unfold fresh in Hj. simplify_eq.
        apply bind_Ok_inv in Hrun as (ys & n1 & Hys & _). eauto.
      * intros (ys & n1 & Hys). eexists _, _.
        erewrite bind_Ok by reflexivity. erewrite bind_Ok by done. reflexivity.
  - simpl. split; [done | intros _; by eexists _, _].
Qed.

(** X1.  Whether [substitute] returns does not depend on the allocator, and
    it returns exactly when every reference it meets names, by a string, a
    key of [entries]; otherwise it raises. *)
Theorem substitute_returns_iff_resolvable (entries : dict value) (a : value) (n : alloc) :
  ((∃ r n', substitute entries a n = (Ok r, n')) ↔ resolvable entries a = true)
  ∧ ((∃ e n', substitute entries a n = (Raise e, n')) ↔ resolvable entries a = false).
Proof.
  pose proof (substitute_returns entries a n) as Hiff. split; [done|].
  destruct (substitute entries a n) as [[r|e] n'] eqn:Hrun.
  - assert (resolvable entries a = true) as -> by (apply Hiff; eauto).
    split; [by intros (? & ? & ?) | done].
  - split; [intros _ | eauto].
    destruct (resolvable entries a); [|done].
    destruct (proj2 Hiff eq_refl) as (? & ? & ?). done.
Qed.

Lemma substitute_returns_iff_resolvable_witness :
  (∃ r n', substitute [("base", VInt 1)]
             (VList 1 [VDict 2 [("load", VStr "base")]; VStr "s"]) 10 = (Ok r, n'))
  ∧ (∃ e n', substitute [("base", VInt 1)]
               (VList 1 [VDict 2 [("load", VStr "other")]; VStr "s"]) 10 = (Raise e, n')).
Proof.
  split.
  - by apply (substitute_returns_iff_resolvable [("base", VInt 1)]).
  - by apply (substitute_returns_iff_resolvable [("base", VInt 1)]).
Defined.

Lemma lookup_entry_Raise_inv entries a loadit n e n' :
  lookup_entry entries a loadit n = (Raise e, n') →
  (hashable loadit = true ∧ e = cannot_find a
   ∧ ∀ s, loadit = VStr s → dict_get s entries = None)
  ∨ (hashable loadit = false ∧ e = unhashable loadit).
Proof.
  unfold lookup_entry.
  destruct loadit as [| | | |key| | | | |];
    try (destruct (hashable _) eqn:Hh; unfold raise; intros Heq;
         [left | right]; split_and!; try congruence; by intros ? ?).
  unfold raise, ret. destruct (dict_get key entries) eqn:Hkey; intros Heq; simplify_eq.
  left. split_and!; [done..|]. intros s Hs. by simplify_eq.
Qed.

Lemma substitute_Raise_site entries a :
  ∀ n e n', substitute entries a n = (Raise e, n') →
  ∃ i items loadit,
    reaches a (VDict i items)
    ∧ dict_get "load" items = Some loadit
    ∧ ((hashable loadit = true ∧ e = cannot_find (VDict i items)
        ∧ ∀ s, loadit = VStr s → dict_get s entries = None)
       ∨ (hashable loadit = false ∧ e = unhashable loadit)).
Proof.
  induction a as [a Hd Hl Ht|i xs IH|i items IH|i xs IH] using value_ind_nested;
    intros n e n' Hrun.
  - by destruct a.
  - simpl in Hrun. apply bind_Raise_inv in Hrun as [Hrun|(j & n0 & _ & Hrun)]; [done|].
    apply bind_Raise_inv in Hrun as [Hrun|(ys & n1 & _ & Hrun)]; [|done].
    apply mapM_Raise_inv in Hrun as (x & m & Hin & Hx).
    rewrite Forall_forall in IH.
    destruct (IH x Hin _ _ _ Hx) as (i' & items' & loadit & Hreach & Hload & Hcase).
    exists i', items', loadit. split_and!; [|done..]. by eapply reaches_element.
  - simpl in Hrun. destruct (dict_get "load" items) as [loadit|] eqn:Hload.
    + exists i, items, loadit. split_and!; [constructor | done |].
      by eapply lookup_entry_Raise_inv.
    + apply bind_Raise_inv in Hrun as [Hrun|(j & n0 & _ & Hrun)]; [done|].
      apply bind_Raise_inv in Hrun as [Hrun|(ys & n1 & _ & Hrun)]; [|done].
      apply mapM_values_Raise_inv in Hrun as (k & x & m & Hin & Hx).
      rewrite Forall_forall in IH.
      destruct (IH (k, x) Hin _ _ _ Hx) as (i' & items' & loadit & Hreach & Hload' & Hcase).
      exists i', items', loadit. split_and!; [|done..]. by eapply reaches_value.
  - done.
Qed.

(** X2.  When [substitute] raises, a reference that it met is at fault:
    either its [load] value is hashable and not a key of [entries], and the
    error is the [ZValueError] "Cannot find entry to load" carrying that
    reference node, or its [load] value is unhashable (a list or a dict) and
    the error is the [TypeError] of the lookup.  Nothing else is raised. *)
Theorem substitute_error_is_of_a_reference
    (entries : dict value) (a : value) (n n' : alloc) (e : exc) :
  substitute entries a n = (Raise e, n') →
  ∃ i items loadit,
    reaches a (VDict i items)
    ∧ dict_get "load" items = Some loadit
    ∧ ((hashable loadit = true
        ∧ e = Exc ZValueError [Lit "Cannot find entry to load"]
                [("a", AValue (VDict i items))] None
        ∧ ∀ s, loadit = VStr s → dict_get s entries = None)
       ∨ (hashable loadit = false ∧ exc_cls e = TypeError)).
Proof.
  intros Hrun.
  destruct (substitute_Raise_site _ _ _ _ _ Hrun)
    as (i & items & loadit & Hreach & Hload & [Hcase|[Hh ->]]).
  - exists i, items, loadit. split_and!; [done..|]. by left.
  - exists i, items, loadit. split_and!; [done..|]. by right.
Qed.

Lemma substitute_error_is_of_a_reference_witness :
  ∃ i items loadit,
    reaches (VDict 1 [("x", VList 2 [VInt 0; VDict 3 [("load", VStr "gone")]])])
      (VDict i items)
    ∧ dict_get "load" items = Some loadit
    ∧ ((hashable loadit = true
        ∧ Exc ZValueError [Lit "Cannot find entry to load"]
            [("a", AValue (VDict 3 [("load", VStr "gone")]))] None
          = Exc ZValueError [Lit "Cannot find entry to load"]
              [("a", AValue (VDict i items))] None
        ∧ ∀ s, loadit = VStr s → dict_get s [("base", VInt 1)] = None)
       ∨ (hashable loadit = false
          ∧ exc_cls (Exc ZValueError [Lit "Cannot find entry to load"]
                       [("a", AValue (VDict 3 [("load", VStr "gone")]))] None)
            = TypeError)).
Proof.
  apply (substitute_error_is_of_a_reference [("base", VInt 1)]
           (VDict 1 [("x", VList 2 [VInt 0; VDict 3 [("load", VStr "gone")]])]) 10 12).
  reflexivity.
Defined.

Lemma mapM_copies entries xs :
  Forall (λ x, reference_free x = true →
               ∀ n, ∃ r, substitute entries x n = (Ok r, n + length (container_ids x))
                         ∧ shape r = shape x
                         ∧ container_ids r = seq n (length (container_ids x))) xs →
  forallb reference_free xs = true →
  ∀ n, ∃ ys, mapM (substitute entries) xs n
             = (Ok ys, n + length (concat (map container_ids xs)))
             ∧ map shape ys = map shape xs
             ∧ concat (map container_ids ys)
               = seq n (length (concat (map container_ids xs))).
Proof.
  induction 1 as [|x xs Hx _ IH]; simpl; intros Hfree n.
  - exists []. by rewrite Nat.add_0_r.
  - apply andb_true_iff in Hfree as [Hfx Hfxs].
    destruct (Hx Hfx n) as (y & Hy & Hshape & Hids).
    destruct (IH Hfxs (n + length (container_ids x))) as (ys & Hys & Hshapes & Hidss).
    exists (y :: ys). erewrite bind_Ok by done. erewrite bind_Ok by done.
    unfold ret. simpl. rewrite length_app, Nat.add_assoc, seq_app.
    split_and!; [done | by f_equal | by rewrite Hids, Hidss].
Qed.

Lemma mapM_values_copies entries (items : dict value) :
  Forall (λ kv, reference_free kv.2 = true →
                ∀ n, ∃ r, substitute entries kv.2 n
                          = (Ok r, n + length (container_ids kv.2))
                          ∧ shape r = shape kv.2
                          ∧ container_ids r = seq n (length (container_ids kv.2))) items →
  forallb (λ '(k, v), reference_free v) items = true →
  ∀ n, ∃ ys, mapM_values (substitute entries) items n
             = (Ok ys, n + length (concat (map (λ '(k, v), container_ids v) items)))
             ∧ map (λ '(k, v), (k, shape v)) ys = map (λ '(k, v), (k, shape v)) items
             ∧ concat (map (λ '(k, v), container_ids v) ys)
               = seq n (length (concat (map (λ '(k, v), container_ids v) items))).
Proof.
  induction 1 as [|[k x] items Hx _ IH]; simpl in *; intros Hfree n.
  - exists []. by rewrite Nat.add_0_r.
  - apply andb_true_iff in Hfree as [Hfx Hfxs].
    destruct (Hx Hfx n) as (y & Hy & Hshape & Hids).
    destruct (IH Hfxs (n + length (container_ids x))) as (ys & Hys & Hshapes & Hidss).
    exists ((k, y) :: ys). erewrite bind_Ok by done. erewrite bind_Ok by done.
    unfold ret. simpl. rewrite length_app, Nat.add_assoc, seq_app.
    split_and!; [done | by f_equal; [f_equal|] | by rewrite Hids, Hidss].
Qed.

Lemma substitute_copies entries a :
  reference_free a = true →
  ∀ n, ∃ r, substitute entries a n = (Ok r, n + length (container_ids a))
            ∧ shape r = shape a
            ∧ container_ids r = seq n (length (container_ids a)).
Proof.
  induction a as [a Hd Hl Ht|i xs IH|i items IH|i xs IH] using value_ind_nested;
    intros Hfree n.
  - exists a. destruct a; try done; simpl; by rewrite Nat.add_0_r.
  - simpl in *.
    destruct (mapM_copies entries xs IH Hfree (S n)) as (ys & Hys & Hshape & Hids).
    exists (VList n ys). erewrite bind_Ok by reflexivity. erewrite bind_Ok by done.
    unfold ret. simpl. rewrite Hshape, Hids.
    split_and!; [f_equal; lia | done | done].
  - simpl in *. apply andb_true_iff in Hfree as [Hload Hfree].
    unfold dict_has in Hload. destruct (dict_get "load" items); [done|].
    destruct (mapM_values_copies entries items IH Hfree (S n)) as (ys & Hys & Hshape & Hids).
    exists (VDict n ys). erewrite bind_Ok by reflexivity. erewrite bind_Ok by done.
    unfold ret. simpl. rewrite Hshape, Hids.
    split_and!; [f_equal; lia | done | done].
  - exists (VTuple i xs). simpl. by rewrite Nat.add_0_r.
Qed.

(** X3.  On a tree without references, [substitute] returns, whatever
    [entries] is, a copy: the same data when identities are left out, in
    which every list and every dict is a new object (their identities are
    the next ones of the allocator, one for each container of the tree). *)
Theorem substitute_copies_reference_free
    (entries : dict value) (a : value) (n : alloc) :
  reference_free a = true →
  ∃ r, substitute entries a n = (Ok r, n + length (container_ids a))
       ∧ shape r = shape a
       ∧ container_ids r = seq n (length (container_ids a)).
Proof. intros Hfree. by apply substitute_copies. Qed.

Lemma substitute_copies_reference_free_witness :
  ∃ r, substitute [] (VDict 1 [("x", VList 2 [VInt 0]); ("y", VDict 3 [])]) 10
       = (Ok r, 10 + 3)
       ∧ shape r = shape (VDict 1 [("x", VList 2 [VInt 0]); ("y", VDict 3 [])])
       ∧ container_ids r = seq 10 3.
Proof.
  apply (substitute_copies_reference_free []
           (VDict 1 [("x", VList 2 [VInt 0]); ("y", VDict 3 [])]) 10).
  reflexivity.
Defined.

Lemma forallb_related {A B} (R : A → B → Prop) (f : A → bool) (g : B → bool) xs ys :
  Forall2 R xs ys →
  Forall (λ x, ∀ y, R x y → g y = f x) xs →
  forallb g ys = forallb f xs.
Proof.
  induction 1 as [|x y xs ys Hxy _ IH]; simpl; [done|].
  intros [Hx Hxs]%Forall_cons. by rewrite (Hx y Hxy), IH.
Qed.

Lemma substitute_reference_free entries a :
  ∀ n r n', substitute entries a n = (Ok r, n') →
            reference_free r = targets_free entries a.
Proof.
  induction a as [a Hd Hl Ht|i xs IH|i items IH|i xs IH] using value_ind_nested;
    intros n r n' Hrun.
  - destruct a; try done; simpl in Hrun; unfold ret in Hrun; by simplify_eq.
  - apply substitute_list_Ok_inv in Hrun as (j & ys & -> & Hall). simpl.
    apply (forallb_related _ _ _ _ _ Hall).
    eapply Forall_impl; [exact IH|]. intros x Hx y (m & m' & Hy). eauto.
  - simpl. destruct (dict_get "load" items) as [loadit|] eqn:Hload.
    + simpl in Hrun. rewrite Hload in Hrun. unfold lookup_entry in Hrun.
      destruct loadit as [| | | |key| | | | |];
        try (destruct (hashable _); by unfold raise in Hrun).
      unfold raise, ret in Hrun. destruct (dict_get key entries); by simplify_eq.
    + apply substitute_dict_Ok_inv in Hrun as (j & items' & -> & Hall); [|done].
      simpl. pose proof (Forall2_items_split _ _ _ Hall) as [Hkeys _].
      assert (dict_has "load" items' = false) as ->.
      { apply dict_has_false. rewrite Hkeys. by apply dict_get_None. }
      simpl. apply (forallb_related _ _ _ _ _ Hall).
      eapply Forall_impl; [exact IH|].
      intros [k x] Hx [k' y] [_ (m & m' & Hy)]. simpl in *. eauto.
  - simpl in Hrun. unfold ret in Hrun. by simplify_eq.
Qed.

(** X4.  What [substitute] returns is free of references exactly when every
    reference it met named an entry that is itself free of references: one
    pass resolves a tree fully if and only if the entries it loads need no
    resolution themselves. *)
Theorem substitute_result_reference_free
    (entries : dict value) (a r : value) (n n' : alloc) :
  substitute entries a n = (Ok r, n') →
  reference_free r = targets_free entries a.
Proof. apply substitute_reference_free. Qed.

Lemma substitute_result_reference_free_witness :
  reference_free (VList 10 [VDict 7 [("y", VDict 8 [("load", VStr "leaf")])]; VInt 1])
  = targets_free [("leaf", VInt 1); ("mid", VDict 7 [("y", VDict 8 [("load", VStr "leaf")])])]
      (VList 1 [VDict 2 [("load", VStr "mid")]; VDict 3 [("load", VStr "leaf")]]).
Proof.
  apply (substitute_result_reference_free
           [("leaf", VInt 1); ("mid", VDict 7 [("y", VDict 8 [("load", VStr "leaf")])])]
           (VList 1 [VDict 2 [("load", VStr "mid")]; VDict 3 [("load", VStr "leaf")]])
           _ 10 11).
  reflexivity.
Defined.

(* ===================================================================== *)
(** * More on [get_all_test_data] *)
(* ===================================================================== *)

Lemma difference_empty_subseteq (X Y : gset string) : X ∖ Y = ∅ ↔ X ⊆ Y.
Proof.
  split.
  - intros Hempty x Hx. destruct (decide (x ∈ Y)) as [|Hn]; [done|].
    exfalso. apply (not_elem_of_empty (C:=gset string) x). rewrite <- Hempty.
    by apply elem_of_difference.
  - intros Hsub. apply leibniz_equiv. intros x. split.
    + intros [Hx Hn]%elem_of_difference. destruct Hn. by apply Hsub.
    + intros Hx. by apply not_elem_of_empty in Hx.
Qed.

(** The second loop changes the [data] of each record and nothing else. *)
Lemma resolve_records_Ok_records res n res' n' :
  resolve_records res n = (Ok res', n') →
  Forall2 (λ kt kt',
             kt.1 = kt'.1
             ∧ runs (substitute (map (λ '(k, v), (k, data v)) res))
                 (data kt.2) (data kt'.2)
             ∧ kt'.2 = set_data kt.2 (data kt'.2))
          res res'.
Proof.
  unfold resolve_records. intros Hall%mapM_Ok_inv.
  eapply Forall2_impl; [done|]. intros [k t] kt' (m & m' & Hrun).
  apply bind_Ok_inv in Hrun as (x & m1 & Hsub%add_context_Ok_inv & Hret).
  unfold ret in Hret. simplify_eq. simpl. split_and!; [done| |done]. by eexists _, _.
Qed.

(** What a corpus that [get_all_test_data] returns is made of. *)
Lemma get_all_test_data_Ok_inv files n res n' :
  get_all_test_data files n = (Ok res, n') →
  Forall2 (record_of (raw_entries files)) (all_items files) res
  ∧ NoDup (keys res)
  ∧ keys res = keys (all_items files).
Proof.
  unfold get_all_test_data. intros Hrun.
  apply bind_Ok_inv in Hrun as (ts & n1 & Hrecords & Hresolve).
  apply load_records_Ok_NoDup in Hrecords as [Hacc Hnd].
  pose proof (accepted_keys _ _ Hacc) as Hkeys.
  apply resolve_records_Ok_records in Hresolve.
  rewrite (entries_raw _ _ Hacc) in Hresolve. fold (raw_entries files) in Hresolve.
  assert (keys res = keys ts) as Hkeys'.
  { unfold keys. clear -Hresolve.
    induction Hresolve as [|[k1 t1] [k2 t2] l l' [Hk _] _ IH]; simpl in *; [done|].
    by f_equal. }
  split_and!; [|by rewrite Hkeys', Hkeys | by rewrite Hkeys', Hkeys].
  clear Hkeys Hkeys' Hnd. revert res Hresolve.
  generalize (raw_entries files) as entries.
  induction Hacc as [|kv kt l ts Hkv _ IH]; intros entries res Hres.
  - apply Forall2_nil_inv_l in Hres as ->. constructor.
  - apply Forall2_cons_inv_l in Hres as (kt' & res' & (Hk & Hrun & Hset) & Hres & ->).
    constructor; [|by apply IH].
    destruct Hkv as (Hk0 & Hdata & Hleft & HR & HP & HT & HeR & HeP & HeT).
    destruct kt' as [k' t']. unfold record_of. simpl in *.
    rewrite <- !difference_empty_subseteq.
    split_and!; [congruence | by exists (data kt.2) | done | by rewrite Hset..].
Qed.

Lemma Forall2_lookup_dict {A B} (R : string * A → string * B → Prop)
    (d : dict A) (d' : dict B) k v :
  Forall2 R d d' → (∀ kx ky, R kx ky → kx.1 = ky.1) → NoDup (keys d') →
  (k, v) ∈ d → ∃ t, dict_get k d' = Some t ∧ R (k, v) (k, t).
Proof.
  intros Hall Hkey Hnd [j Hj]%list_elem_of_lookup.
  destruct (Forall2_lookup_l _ _ _ _ _ Hall Hj) as ([k' t] & Ht & HR).
  pose proof (Hkey _ _ HR) as Hk. simpl in Hk. subst k'.
  exists t. split; [|done]. apply dict_get_NoDup; [done|].
  by eapply list_elem_of_lookup_2.
Qed.

(** X5.  On files in the fixture format ([tags], [requires] and
    [properties] are mappings where present), a corpus that
    [get_all_test_data] returns has one record for each item of the files,
    under the same keys and in reading order; the keys are distinct; each
    record has the metadata of its raw record, within the whitelists, and as
    [data] what [substitute] returns on the raw data against the raw data of
    all records. *)
Theorem loaded_corpus_invariant
    (files : list fixture_file) (n n' : alloc) (res : dict TestData) :
  Forall (λ kv, in_format kv.2) (all_items files) →
  get_all_test_data files n = (Ok res, n') →
  Forall2 (record_of (raw_entries files)) (all_items files) res
  ∧ NoDup (keys res)
  ∧ keys res = keys (all_items files)
  ∧ length res = length (all_items files).
Proof.
  intros _ (Hall & Hnd & Hkeys)%get_all_test_data_Ok_inv.
  split_and!; [done..|]. symmetry. by eapply Forall2_length.
Qed.

Lemma loaded_corpus_invariant_witness :
  Forall2 (record_of (raw_entries sound_files)) (all_items sound_files) sound_corpus
  ∧ NoDup (keys sound_corpus)
  ∧ keys sound_corpus = keys (all_items sound_files)
  ∧ length sound_corpus = length (all_items sound_files).
Proof.
  apply (loaded_corpus_invariant sound_files 100 109).
  - repeat constructor; intros f x Hf Hx;
      repeat (apply elem_of_cons in Hf as [->|Hf]; [simpl in Hx; by simplify_eq|]);
      by apply elem_of_nil in Hf.
  - vm_compute. reflexivity.
Defined.

Lemma accepted_valid kv kt : accepted kv kt → valid_record kv.2.
Proof.
  intros (_ & Hdata & Hleft & HR & HP & HT & HeR & HeP & HeT).
  split_and!; [by rewrite Hdata | done |].
  by exists (requires kt.2), (properties kt.2), (tags kt.2).
Qed.

(** A valid record under a new key is taken. *)
Lemma add_record_valid fn res k v n :
  k ∉ keys res → valid_record v →
  ∃ t, add_record fn res (k, v) n = (Ok (res ++ [(k, t)]), S (S (S n)))
       ∧ accepted (k, v) (k, t).
Proof.
  intros Hk ([x Hdata] & Hleft & R & P & T & HR & HP & HT & HeR & HeP & HeT).
  exists (mkTestData T R x P). rewrite add_record_unfold.
  pose proof Hk as Hk'. apply dict_has_false in Hk'. rewrite Hk', Hdata, Hleft.
  destruct (field_items_Some _ _ _ (S n) HR) as [i1 ->].
  destruct (field_items_Some _ _ _ (S (S n)) HP) as [i2 ->].
  destruct (field_items_Some _ _ _ n HT) as [i3 ->].
  rewrite validate_dicts, decide_True by done. rewrite dict_set_fresh by done.
  split; [done|]. by split_and!.
Qed.

Lemma add_records_valid fn d res n :
  NoDup (keys res ++ keys d) → Forall (λ kv, valid_record kv.2) d →
  ∃ ts n', foldM (add_record fn) res d n = (Ok (res ++ ts), n') ∧ Forall2 accepted d ts.
Proof.
  revert res n. induction d as [|[k v] d IH]; simpl; intros res n Hnd Hvalid.
  - exists [], n. by rewrite app_nil_r.
  - apply Forall_cons in Hvalid as [Hv Hvalid]. simpl in Hv.
    assert (k ∉ keys res) as Hk.
    { apply NoDup_app in Hnd as (_ & Hdisj & _). intros Hin. apply (Hdisj k Hin). left. }
    destruct (add_record_valid fn res k v n Hk Hv) as (t & Hadd & Hacc).
    destruct (IH (res ++ [(k, t)]) (S (S (S n)))) as (ts & n' & Hrest & Hall); [|done|].
    { unfold keys in *. rewrite fmap_app. simpl. rewrite <- app_assoc. done. }
    exists ((k, t) :: ts), n'. erewrite bind_Ok by done.
    rewrite <- app_assoc in Hrest. split; [done | by constructor].
Qed.

Lemma load_records_valid files res n :
  NoDup (keys res ++ keys (all_items files)) →
  Forall (λ kv, valid_record kv.2) (all_items files) →
  ∃ ts n', load_records files res n = (Ok (res ++ ts), n')
           ∧ Forall2 accepted (all_items files) ts.
Proof.
  unfold load_records, all_items.
  revert res n. induction files as [|[fn d] files IH]; simpl; intros res n Hnd Hvalid.
  - exists [], n. by rewrite app_nil_r.
  - apply Forall_app in Hvalid as [Hd Hvalid].
    unfold keys in Hnd. rewrite fmap_app, app_assoc in Hnd.
    destruct (add_records_valid fn d res n) as (ts1 & n1 & Hfile & Hall1); [|done|].
    { by apply NoDup_app in Hnd as (? & _ & _). }
    pose proof (accepted_keys _ _ Hall1) as Hk1. unfold keys in Hk1.
    destruct (IH (res ++ ts1) n1) as (ts2 & n2 & Hrest & Hall2); [|done|].
    { unfold keys. by rewrite fmap_app, Hk1. }
    exists (ts1 ++ ts2), n2. erewrite bind_Ok by done.
    rewrite <- app_assoc in Hrest. split; [done | by apply Forall2_app].
Qed.

(** X6.  On files in the fixture format, [get_all_test_data] returns a
    corpus exactly when no key is read
    twice, every raw record is valid (it has [data], no field besides the
    four, and mappings within the whitelists) and the raw [data] of every
    record resolves against the raw data of all records; in every other case
    it raises. *)
Theorem get_all_test_data_returns_iff (files : list fixture_file) (n : alloc) :
  Forall (λ kv, in_format kv.2) (all_items files) →
  (∃ res n', get_all_test_data files n = (Ok res, n'))
  ↔ NoDup (keys (all_items files))
    ∧ Forall (λ kv, valid_record kv.2) (all_items files)
    ∧ Forall (data_resolvable (raw_entries files)) (all_items files).
Proof.
  intros _. split.
  - intros (res & n' & Hrun).
    pose proof Hrun as (Hall & Hnd & Hkeys)%get_all_test_data_Ok_inv.
    unfold get_all_test_data in Hrun.
    apply bind_Ok_inv in Hrun as (ts & n1 & Hrecords & _).
    apply load_records_Ok_NoDup in Hrecords as [Hacc _].
    split_and!.
    + by rewrite <- Hkeys.
    + clear -Hacc. induction Hacc; constructor; [by eapply accepted_valid | done].
    + clear -Hall. induction Hall as [|kv kt l res Hkv _ IH]; constructor; [|done].
      destruct Hkv as (_ & (x & Hx & (m & m' & Hrun)) & _).
      intros x' Hx'. simplify_eq. apply (substitute_returns _ _ m). eauto.
  - intros (Hnd & Hvalid & Hres). unfold get_all_test_data.
    destruct (load_records_valid files [] n) as (ts & n1 & Hload & Hacc); [done..|].
    simpl in Hload. erewrite bind_Ok by done.
    unfold resolve_records. rewrite (entries_raw _ _ Hacc). fold (raw_entries files).
    apply mapM_total. intros [k t] [j Hj]%list_elem_of_lookup m.
    destruct (Forall2_lookup_r _ _ _ _ _ Hacc Hj) as ([k' v] & Hv & _ & Hdata & _).
    rewrite Forall_forall in Hres.
    assert (resolvable (raw_entries files) (data t) = true) as Hok.
    { apply (Hres (k', v)); [by eapply list_elem_of_lookup_2 | done]. }
    apply (substitute_returns _ _ m) in Hok as (r & m' & Hrun).
    exists (k, set_data t r), m'. unfold bind, add_context. by rewrite Hrun.
Qed.

Lemma get_all_test_data_returns_iff_witness :
  ∃ res n', get_all_test_data sound_files 100 = (Ok res, n').
Proof.
  apply (get_all_test_data_returns_iff sound_files 100); [|split_and!].
  - repeat constructor; intros f x Hf Hx;
      repeat (apply elem_of_cons in Hf as [->|Hf]; [simpl in Hx; by simplify_eq|]);
      by apply elem_of_nil in Hf.
  - apply (bool_decide_unpack _). vm_compute. exact I.
  - repeat constructor; simpl; try (by eexists); try reflexivity;
      eexists _, _, _; split_and!; try reflexivity; by vm_compute.
  - repeat constructor; intros x Hx; simpl in Hx; by simplify_eq.
Defined.

(** X7.  A record without [data] stops the load when the loop comes to it
    (the records before it are accepted and its key is new): the error is
    a [ZValueError] that carries the key and the raw record, whatever else
    the record holds; the whitelists are not looked at. *)
Theorem missing_data_is_error
    (pre post : list fixture_file) (fn k : string) (d1 d2 : dict (dict value))
    (v : dict value) (n n1 : alloc) (res : dict TestData) :
  load_records (pre ++ [(fn, d1)]) [] n = (Ok res, n1) →
  k ∉ keys res →
  dict_get "data" v = None →
  get_all_test_data (pre ++ (fn, d1 ++ (k, v) :: d2) :: post) n
  = (Raise (Exc ZValueError [] [("k", AStr k); ("v", ARecord v)] None), S n1).
Proof.
  intros Hload Hk Hdata. apply get_all_test_data_Raise.
  eapply load_records_reach; [done|].
  rewrite add_record_unfold. apply dict_has_false in Hk. by rewrite Hk, Hdata.
Qed.

Lemma missing_data_is_error_witness :
  get_all_test_data
    ([] ++ ("one.yaml", [("ok", [("data", VInt 0)])] ++ ("a", no_data_record) :: [])
        :: []) 0
  = (Raise (Exc ZValueError [] [("k", AStr "a"); ("v", ARecord no_data_record)] None), 4).
Proof.
  apply (missing_data_is_error [] [] "one.yaml" "a" [("ok", [("data", VInt 0)])] []
           no_data_record 0 3 [("ok", mkTestData [] [] (VInt 0) [])]).
  - reflexivity.
  - apply (bool_decide_unpack _). vm_compute. exact I.
  - reflexivity.
Defined.

Lemma dict_remove_filter {A} (d : dict A) k :
  dict_remove k d = filter (λ kv, kv.1 ≠ k) d.
Proof.
  induction d as [|[k' v] d IH]; [done|]. simpl. rewrite filter_cons. simpl.
  destruct (decide (k' = k)) as [->|Hne].
  - by rewrite decide_False by (by intros ?).
  - by rewrite decide_True, IH by done.
Qed.

(** What the four [pop]s leave: the items under other keys, in order. *)
Lemma leftover_filter (v : dict value) :
  leftover v = filter (λ kv, kv.1 ∉ known_fields) v.
Proof.
  unfold leftover. rewrite !dict_remove_filter, !list_filter_filter.
  apply list_filter_iff. intros [k x]. simpl. unfold known_fields.
  rewrite !not_elem_of_cons. pose proof (not_elem_of_nil k) as Hnil.
  unfold not in *. tauto.
Qed.

(** X8.  A record with [data] and a field besides [tags], [data],
    [requires] and [properties] stops the load when the loop comes to it:
    the error says "Unknown properties" and carries the raw record and the
    unknown fields, which are the items of the record under other keys, in
    their order; the whitelists are not looked at. *)
Theorem unknown_field_is_error
    (pre post : list fixture_file) (fn k : string) (d1 d2 : dict (dict value))
    (v : dict value) (n n1 : alloc) (res : dict TestData)
    (x y : value) (field : string) :
  load_records (pre ++ [(fn, d1)]) [] n = (Ok res, n1) →
  k ∉ keys res →
  dict_get "data" v = Some x →
  (field, y) ∈ v →
  field ∉ known_fields →
  get_all_test_data (pre ++ (fn, d1 ++ (k, v) :: d2) :: post) n
  = (Raise (Exc ZValueError [Lit "Unknown properties"]
              [("v", ARecord v);
               ("vv", ARecord (filter (λ kv, kv.1 ∉ known_fields) v))] None),
     S (S (S n1))).
Proof.
  intros Hload Hk Hdata Hin Hfield. apply get_all_test_data_Raise.
  eapply load_records_reach; [done|].
  rewrite add_record_unfold. apply dict_has_false in Hk. rewrite Hk, Hdata.
  rewrite leftover_filter.
  destruct (filter (λ kv, kv.1 ∉ known_fields) v) as [|kv rest] eqn:Hleft; [|done].
  assert ((field, y) ∈ filter (λ kv : string * value, kv.1 ∉ known_fields) v) as Hin'
    by by apply list_elem_of_filter.
  rewrite Hleft in Hin'. by apply elem_of_nil in Hin'.
Qed.

Lemma unknown_field_is_error_witness :
  get_all_test_data
    ([] ++ ("one.yaml", [] ++ ("a", unknown_field_record) :: []) :: []) 0
  = (Raise (Exc ZValueError [Lit "Unknown properties"]
              [("v", ARecord unknown_field_record);
               ("vv", ARecord (filter (λ kv, kv.1 ∉ known_fields) unknown_field_record))]
              None), 3).
Proof.
  apply (unknown_field_is_error [] [] "one.yaml" "a" [] [] unknown_field_record 0 0 []
           (VInt 1) (VInt 2) "note").
  - reflexivity.
  - apply not_elem_of_nil.
  - reflexivity.
  - simpl. unfold unknown_field_record. do 3 right. left.
  - apply (bool_decide_unpack _). vm_compute. exact I.
Defined.

(** X9.  In a corpus that [get_all_test_data] returns, the [data] of a
    record is free of references exactly when every reference in its raw
    data names a record whose raw data is free of references; a reference
    to a record that itself holds a reference leaves one in the corpus. *)
Theorem loaded_data_reference_free
    (files : list fixture_file) (n n' : alloc) (res : dict TestData)
    (k : string) (v : dict value) (x : value) :
  get_all_test_data files n = (Ok res, n') →
  (k, v) ∈ all_items files →
  dict_get "data" v = Some x →
  ∃ t, dict_get k res = Some t
       ∧ reference_free (data t) = targets_free (raw_entries files) x.
Proof.
  intros (Hall & Hnd & _)%get_all_test_data_Ok_inv Hin Hdata.
  destruct (Forall2_lookup_dict _ _ _ k v Hall) as (t & Ht & Hrec); [|done..|].
  { by intros kx ky (? & _). }
  exists t. split; [done|].
  destruct Hrec as (_ & (x' & Hx' & (m & m' & Hrun)) & _). simpl in *. simplify_eq.
  by eapply substitute_reference_free.
Qed.

Lemma loaded_data_reference_free_witness :
  (∃ t, dict_get "A" chained_corpus = Some t
        ∧ reference_free (data t)
          = targets_free (raw_entries chained_files)
              (VList 20 [VInt 0; VDict 21 [("load", VStr "B")]]))
  ∧ targets_free (raw_entries chained_files)
      (VList 20 [VInt 0; VDict 21 [("load", VStr "B")]]) = false.
Proof.
  split; [|reflexivity].
  eapply (loaded_data_reference_free chained_files 100 _ chained_corpus "A"
            [("data", VList 20 [VInt 0; VDict 21 [("load", VStr "B")]])]).
  - vm_compute. reflexivity.
  - simpl. right. right. left.
  - reflexivity.
Defined.

(* ===================================================================== *)
(** * More on the queries *)
(* ===================================================================== *)

(** A loop that puts the selected items of a dict into a new dict keeps
    them in their order. *)
Lemma select_fold (f : string → TestData → bool) (d : dict TestData) :
  NoDup (keys d) →
  foldl (λ res '(k, v), if f k v then dict_set k v res else res) [] d
  = filter (λ kv, f kv.1 kv.2 = true) d.
Proof.
  intros Hnd.
  enough (∀ acc, (∀ k, k ∈ keys d → k ∉ keys acc) →
            foldl (λ res '(k, v), if f k v then dict_set k v res else res) acc d
            = acc ++ filter (λ kv, f kv.1 kv.2 = true) d) as Hacc.
  { apply (Hacc []). intros k _. apply not_elem_of_nil. }
  unfold keys in *. induction d as [|[k v] d IH]; intros acc Hfresh.
  - simpl. by rewrite app_nil_r.
  - simpl in Hnd. apply NoDup_cons in Hnd as [Hk Hnd].
    rewrite filter_cons. simpl. destruct (f k v) eqn:Hsel.
    + rewrite decide_True by done.
      rewrite (dict_set_fresh acc k v) by (apply Hfresh; left).
      rewrite IH; [by rewrite <- app_assoc | done |].
      intros k' Hk'. rewrite fmap_app, elem_of_app. simpl.
      intros [Hin|Hin%list_elem_of_singleton].
      * by apply (Hfresh k'); [right|].
      * by subst.
    + rewrite decide_False by done. apply IH; [done|].
      intros k' Hk'. apply Hfresh. by right.
Qed.

Lemma get_test_data_filter (d : dict TestData) (tagname : string) :
  NoDup (keys d) →
  get_test_data d tagname
  = filter (λ kv, truthy (default (VBool false) (dict_get tagname (tags kv.2))) = true) d.
Proof.
  intros Hnd. unfold get_test_data.
  by rewrite (select_fold
                (λ _ v, truthy (default (VBool false) (dict_get tagname (tags v))))).
Qed.

Lemma filter_keys_NoDup {A} (P : string * A → Prop) `{∀ x, Decision (P x)} (d : dict A) :
  NoDup (keys d) → NoDup (keys (filter P d)).
Proof.
  unfold keys. intros Hnd. eapply sublist_NoDup; [done|].
  apply fmap_sublist, sublist_filter.
Qed.

Lemma get_test_data_NoDup (d : dict TestData) (tagname : string) :
  NoDup (keys d) → NoDup (keys (get_test_data d tagname)).
Proof.
  intros Hnd. rewrite get_test_data_filter by done. by apply filter_keys_NoDup.
Qed.

(** X10.  For a dict [d] and a tag name, [get_test_data] returns the items
    of [d] whose [tags] has the tag with a value that Python takes for true,
    in the order of [d] and under distinct keys: a record that does not
    declare the tag is never returned, one that declares it as [False] is
    not either, and any other true value ([1], a non-empty string) selects
    the record as [True] does. *)
Theorem get_test_data_exact (d : dict TestData) (tagname : string) :
  NoDup (keys d) →
  (∀ k t, (k, t) ∈ get_test_data d tagname
          ↔ (k, t) ∈ d ∧ ∃ x, dict_get tagname (tags t) = Some x ∧ truthy x = true)
  ∧ NoDup (keys (get_test_data d tagname))
  ∧ sublist (get_test_data d tagname) d
  ∧ (∀ k t, dict_get tagname (tags t) = None → (k, t) ∉ get_test_data d tagname)
  ∧ (∀ k t, dict_get tagname (tags t) = Some (VBool false) →
            (k, t) ∉ get_test_data d tagname).
Proof.
  intros Hnd.
  assert (∀ k t, (k, t) ∈ get_test_data d tagname
                 ↔ (k, t) ∈ d ∧ ∃ x, dict_get tagname (tags t) = Some x ∧ truthy x = true)
    as Hiff.
  { intros k t. rewrite get_test_data_filter by done.
    rewrite list_elem_of_filter. simpl. split.
    - intros [Htrue Hin]. split; [done|].
      destruct (dict_get tagname (tags t)) as [x|]; [by exists x | done].
    - intros [Hin (x & -> & Htrue)]. done. }
  split_and!.
  - done.
  - by apply get_test_data_NoDup.
  - rewrite get_test_data_filter by done. apply sublist_filter.
  - intros k t Hnone (_ & x & Hx & _)%Hiff. congruence.
  - intros k t Hfalse (_ & x & Hx & Htrue)%Hiff. by simplify_eq.
Qed.

Lemma get_test_data_exact_witness :
  (∀ k t, (k, t) ∈ get_test_data sound_corpus "poset"
          ↔ (k, t) ∈ sound_corpus
            ∧ ∃ x, dict_get "poset" (tags t) = Some x ∧ truthy x = true)
  ∧ NoDup (keys (get_test_data sound_corpus "poset"))
  ∧ sublist (get_test_data sound_corpus "poset") sound_corpus
  ∧ (∀ k t, dict_get "poset" (tags t) = None → (k, t) ∉ get_test_data sound_corpus "poset")
  ∧ (∀ k t, dict_get "poset" (tags t) = Some (VBool false) →
            (k, t) ∉ get_test_data sound_corpus "poset").
Proof.
  apply (get_test_data_exact sound_corpus "poset").
  apply (bool_decide_unpack _). vm_compute. exact I.
Defined.

(** X11.  The composition that the tests run, [filter_reqs(get_test_data(
    tagname), req)], on the corpus [alldata] that [get_all_test_data]
    returns on files in the fixture format: it returns the records of the
    corpus that declare the tag with a true value and whose [requires] has
    the key set [{req}], and no other record, in the order of the corpus and
    under distinct keys; and it returns nothing when the tag or the
    requirement is not in its whitelist. *)
Theorem queries_compose
    (files : list fixture_file) (n n' : alloc) (alldata : dict TestData)
    (tagname req : string) :
  Forall (λ kv, in_format kv.2) (all_items files) →
  get_all_test_data files n = (Ok alldata, n') →
  (∀ k t, (k, t) ∈ filter_reqs (get_test_data alldata tagname) req
          ↔ (k, t) ∈ alldata
            ∧ (∃ x, dict_get tagname (tags t) = Some x ∧ truthy x = true)
            ∧ requires_exactly req t)
  ∧ NoDup (keys (filter_reqs (get_test_data alldata tagname) req))
  ∧ sublist (filter_reqs (get_test_data alldata tagname) req) alldata
  ∧ ((tagname ∉ ALLOWED_TAGS) ∨ (req ∉ ALLOWED_REQUIRES) →
     filter_reqs (get_test_data alldata tagname) req = []).
Proof.
  intros _ (Hall & Hnd & _)%get_all_test_data_Ok_inv.
  pose proof (get_test_data_NoDup alldata tagname Hnd) as Hnd'.
  assert (∀ k t, (k, t) ∈ filter_reqs (get_test_data alldata tagname) req
                 ↔ (k, t) ∈ alldata
                   ∧ (∃ x, dict_get tagname (tags t) = Some x ∧ truthy x = true)
                   ∧ requires_exactly req t) as Hiff.
  { intros k t. rewrite filter_reqs_filter by done.
    rewrite get_test_data_filter by done.
    rewrite !list_elem_of_filter. simpl. unfold requires_exactly. split.
    - intros (Hreq & Htrue & Hin). split_and!; [done| |done].
      destruct (dict_get tagname (tags t)) as [x|]; [by exists x | done].
    - intros (Hin & (x & Hx & Htrue) & Hreq). rewrite Hx. by split_and!. }
  split_and!.
  - done.
  - by apply filter_reqs_NoDup.
  - rewrite filter_reqs_filter by done. rewrite get_test_data_filter by done.
    etrans; apply sublist_filter.
  - intros Hout.
    destruct (filter_reqs _ req) as [|[k t] rest] eqn:Hsel; [done|].
    assert ((k, t) ∈ (k, t) :: rest) as Hin by left.
    apply Hiff in Hin as (Hin & (x & Hx & _) & Hreq).
    apply list_elem_of_lookup in Hin as [j Hj].
    destruct (Forall2_lookup_r _ _ _ _ _ Hall Hj)
      as (kv & _ & _ & _ & _ & _ & _ & _ & HR & _ & HT).
    simpl in HR, HT. destruct Hout as [Hout|Hout]; destruct Hout.
    + apply HT. unfold keyset. apply elem_of_list_to_set, keys_elem. exists x.
      by apply dict_get_Some_elem.
    + apply HR. unfold requires_exactly in Hreq. rewrite Hreq.
      by apply elem_of_singleton.
Qed.

Lemma queries_compose_witness :
  (∀ k t, (k, t) ∈ filter_reqs (get_test_data sound_corpus "poset") "poset_sum"
          ↔ (k, t) ∈ sound_corpus
            ∧ (∃ x, dict_get "poset" (tags t) = Some x ∧ truthy x = true)
            ∧ requires_exactly "poset_sum" t)
  ∧ NoDup (keys (filter_reqs (get_test_data sound_corpus "poset") "poset_sum"))
  ∧ sublist (filter_reqs (get_test_data sound_corpus "poset") "poset_sum") sound_corpus
  ∧ (("poset" ∉ ALLOWED_TAGS) ∨ ("poset_sum" ∉ ALLOWED_REQUIRES) →
     filter_reqs (get_test_data sound_corpus "poset") "poset_sum" = []).
Proof.
  apply (queries_compose sound_files 100 109).
  - repeat constructor; intros f x Hf Hx;
      repeat (apply elem_of_cons in Hf as [->|Hf]; [simpl in Hx; by simplify_eq|]);
      by apply elem_of_nil in Hf.
  - vm_compute. reflexivity.
Defined.

(** On [sound_corpus] the posets that need [poset_sum]: the record
    [poset1]. *)
Example queries_compose_sample :
  keys (filter_reqs (get_test_posets sound_corpus) "poset_sum") = ["poset1"]
  ∧ filter_reqs (get_test_sets sound_corpus) "poset_sum" = [].
Proof. by vm_compute. Qed.

(** X12.  On a dict, [filter_reqs] keeps the order of the items it returns,
    returns the same when applied again with the same requirement, and
    returns nothing when applied to its result with another one: no record
    is selected for two requirements. *)
Theorem filter_reqs_idempotent_disjoint (d : dict TestData) (req req' : string) :
  NoDup (keys d) →
  sublist (filter_reqs d req) d
  ∧ filter_reqs (filter_reqs d req) req = filter_reqs d req
  ∧ (req ≠ req' → filter_reqs (filter_reqs d req) req' = [])
  ∧ (req ≠ req' → ∀ k, k ∈ keys (filter_reqs d req) → k ∉ keys (filter_reqs d req')).
Proof.
  intros Hnd.
  rewrite (filter_reqs_filter (filter_reqs d req)) by by apply filter_reqs_NoDup.
  rewrite (filter_reqs_filter (filter_reqs d req)) by by apply filter_reqs_NoDup.
  rewrite !filter_reqs_filter by done. rewrite !list_filter_filter.
  split_and!.
  - apply sublist_filter.
  - apply list_filter_iff. intros kv. tauto.
  - intros Hne.
    destruct (filter _ d) as [|kv rest] eqn:Hsel; [done|].
    assert (kv ∈ kv :: rest) as Hin by left. rewrite <- Hsel in Hin.
    apply list_elem_of_filter in Hin as [[H1 H2] _]. simpl in *.
    destruct Hne. apply (elem_of_singleton (C:=gset string)).
    rewrite <- H1, H2. by apply elem_of_singleton.
  - intros Hne k [t Ht]%keys_elem [t' Ht']%keys_elem.
    apply list_elem_of_filter in Ht as [H1 Hin].
    apply list_elem_of_filter in Ht' as [H2 Hin']. simpl in *.
    assert (t = t') as <-.
    { apply (dict_get_NoDup d k) in Hin, Hin'; [|done..]. congruence. }
    destruct Hne. apply (elem_of_singleton (C:=gset string)).
    rewrite <- H2, H1. by apply elem_of_singleton.
Qed.

Lemma filter_reqs_idempotent_disjoint_witness :
  sublist (filter_reqs sample_corpus "set_union") sample_corpus
  ∧ filter_reqs (filter_reqs sample_corpus "set_union") "set_union"
    = filter_reqs sample_corpus "set_union"
  ∧ ("set_union" ≠ "poset_sum" →
     filter_reqs (filter_reqs sample_corpus "set_union") "poset_sum" = [])
  ∧ ("set_union" ≠ "poset_sum" →
     ∀ k, k ∈ keys (filter_reqs sample_corpus "set_union") →
          k ∉ keys (filter_reqs sample_corpus "poset_sum")).
Proof.
  apply (filter_reqs_idempotent_disjoint sample_corpus "set_union" "poset_sum").
  apply (bool_decide_unpack _). vm_compute. exact I.
Defined.

(** X13.  On files in the fixture format, a corpus that [get_all_test_data]
    returns holds names of the whitelists only, so a query for another name
    finds nothing:
    [filter_reqs] for a requirement outside [ALLOWED_REQUIRES] and
    [get_test_data] for a tag outside [ALLOWED_TAGS] return the empty
    dict. *)
Theorem queries_outside_whitelists
    (files : list fixture_file) (n n' : alloc) (res : dict TestData) (name : string) :
  Forall (λ kv, in_format kv.2) (all_items files) →
  get_all_test_data files n = (Ok res, n') →
  (name ∉ ALLOWED_REQUIRES → filter_reqs res name = [])
  ∧ (name ∉ ALLOWED_TAGS → get_test_data res name = []).
Proof.
  intros _ (Hall & Hnd & _)%get_all_test_data_Ok_inv.
  assert (∀ kt, kt ∈ res → keyset (requires kt.2) ⊆ ALLOWED_REQUIRES
                           ∧ keyset (tags kt.2) ⊆ ALLOWED_TAGS) as Hwl.
  { intros kt [j Hj]%list_elem_of_lookup.
    destruct (Forall2_lookup_r _ _ _ _ _ Hall Hj)
      as (kv & _ & _ & _ & _ & _ & _ & _ & HR & _ & HT). done. }
  split; intros Hname.
  - rewrite filter_reqs_filter by done.
    destruct (filter _ res) as [|kt rest] eqn:Hsel; [done|].
    assert (kt ∈ kt :: rest) as Hin by left. rewrite <- Hsel in Hin.
    apply list_elem_of_filter in Hin as [Hreq Hin]. simpl in Hreq.
    destruct Hname. apply (proj1 (Hwl kt Hin)). rewrite Hreq.
    by apply elem_of_singleton.
  - rewrite get_test_data_filter by done.
    destruct (filter _ res) as [|kt rest] eqn:Hsel; [done|].
    assert (kt ∈ kt :: rest) as Hin by left. rewrite <- Hsel in Hin.
    apply list_elem_of_filter in Hin as [Htag Hin]. simpl in Htag.
    destruct (dict_get name (tags kt.2)) as [x|] eqn:Hx; [|done].
    destruct Hname. apply (proj2 (Hwl kt Hin)).
    unfold keyset. apply elem_of_list_to_set, keys_elem. exists x.
    by apply dict_get_Some_elem.
Qed.

Lemma queries_outside_whitelists_witness :
  ("set_complement" ∉ ALLOWED_REQUIRES → filter_reqs sound_corpus "set_complement" = [])
  ∧ ("set_complement" ∉ ALLOWED_TAGS → get_test_data sound_corpus "set_complement" = []).
Proof.
  apply (queries_outside_whitelists sound_files 100 109).
  - repeat constructor; intros f x Hf Hx;
      repeat (apply elem_of_cons in Hf as [->|Hf]; [simpl in Hx; by simplify_eq|]);
      by apply elem_of_nil in Hf.
  - vm_compute. reflexivity.
Defined.

(* ===================================================================== *)
(** * More on [check_good_output] *)
(* ===================================================================== *)

Lemma forM__appends {A} (f : A → M TestContext unit) (g : A → list failure) xs :
  Forall (λ y, ∀ tc, f y tc = (Ok tt, tc ++ g y)) xs →
  ∀ tc, forM_ f xs tc = (Ok tt, tc ++ concat (map g xs)).
Proof.
  induction 1 as [|y xs Hy _ IH]; simpl; intros tc.
  - by rewrite app_nil_r.
  - erewrite bind_Ok by apply Hy. rewrite IH. by rewrite <- app_assoc.
Qed.

Lemma concat_map_map {A B C} (f : B → C) (g : A → list B) (xs : list A) :
  concat (map (λ x, map f (g x)) xs) = map f (concat (map g xs)).
Proof.
  induction xs as [|x xs IH]; simpl; [done|]. by rewrite map_app, IH.
Qed.

Lemma check_good_output_appends x :
  ∀ tc, check_good_output x tc = (Ok tt, tc ++ map violation_at (bad_nodes x)).
Proof.
  induction x as [a Hd Hl Ht|i xs IH|i items IH|i xs IH] using value_ind_nested; intros tc.
  - destruct a; try done; simpl; unfold bind, ret; by rewrite ?app_nil_r.
  - cbn [check_good_output is_tuple is_OK negb bad_nodes].
    erewrite bind_Ok by (apply (forM__appends _ (λ y, map violation_at (bad_nodes y))), IH).
    unfold ret. by rewrite concat_map_map.
  - cbn [check_good_output is_tuple is_OK negb bad_nodes].
    erewrite bind_Ok by reflexivity.
    rewrite (forM__appends _ (λ kv, map violation_at (bad_nodes kv.2))).
    + rewrite concat_map_map. do 4 f_equal. apply map_ext. by intros [k v].
    + eapply Forall_impl; [exact IH|]. by intros [k v].
  - reflexivity.
Qed.

Lemma concat_nil_Forall {A} (ls : list (list A)) :
  concat ls = [] ↔ Forall (λ l, l = []) ls.
Proof.
  induction ls as [|l ls IH]; simpl.
  - split; [constructor | done].
  - rewrite Forall_cons, <- IH. split.
    + by intros [-> ->]%app_eq_nil.
    + by intros [-> ->].
Qed.

Lemma Forall_iff_pointwise {A} (P Q : A → Prop) xs :
  Forall (λ x, P x ↔ Q x) xs → (Forall P xs ↔ Forall Q xs).
Proof.
  induction 1 as [|x xs Hx _ IH]; [split; constructor|].
  rewrite !Forall_cons. tauto.
Qed.

Lemma bad_nodes_nil x : bad_nodes x = [] ↔ good x = true.
Proof.
  induction x as [a Hd Hl Ht|i xs IH|i items IH|i xs IH] using value_ind_nested.
  - by destruct a.
  - simpl. rewrite concat_nil_Forall, forallb_Forall, Forall_fmap.
    apply Forall_iff_pointwise. eapply Forall_impl; [exact IH|]. by intros y Hy.
  - simpl. rewrite concat_nil_Forall, forallb_Forall, Forall_fmap.
    apply Forall_iff_pointwise. eapply Forall_impl; [exact IH|]. by intros [k y] Hy.
  - done.
Qed.

(** X14.  [check_good_output] never raises and leaves what the context
    holds: it adds one failure for each tuple and each object of another
    type that it comes to (looking into list elements and dict values, not
    into the offending objects), in that order, with the tuple message for a
    tuple and the message naming the type otherwise.  It adds nothing
    exactly when the value is good. *)
Theorem check_good_output_records_bad_nodes (x : value) (tc : TestContext) :
  check_good_output x tc = (Ok tt, tc ++ map violation_at (bad_nodes x))
  ∧ (check_good_output x tc = (Ok tt, tc) ↔ good x = true).
Proof.
  split; [apply check_good_output_appends|].
  rewrite check_good_output_appends, <- bad_nodes_nil. split.
  - intros Heq. assert (tc ++ map violation_at (bad_nodes x) = tc ++ []) as Happ
      by (rewrite app_nil_r; congruence).
    apply app_inv_head in Happ. by destruct (bad_nodes x).
  - intros ->. by rewrite app_nil_r.
Qed.

Lemma check_good_output_records_bad_nodes_witness :
  check_good_output
    (VDict 1 [("a", VList 2 [VInt 1; VTuple 3 [VNone]]); ("b", VNone)]) []
  = (Ok tt, [] ++ [mkFailure tuple_msg [("x", IObject (VTuple 3 [VNone]))];
                   mkFailure (disallowed_msg VNone) [("x", IObject VNone)]])
  ∧ (check_good_output (VDict 1 [("a", VList 2 [VInt 1])]) [] = (Ok tt, [])).
Proof.
  split.
  - apply (check_good_output_records_bad_nodes
             (VDict 1 [("a", VList 2 [VInt 1; VTuple 3 [VNone]]); ("b", VNone)]) []).
  - by apply (check_good_output_records_bad_nodes (VDict 1 [("a", VList 2 [VInt 1])]) []).
Defined.

(* ===================================================================== *)
(** * More on the verbs *)
(* ===================================================================== *)

(** The end of both verbs: the failures, if any, are raised together. *)
Lemma raise_if_failures_then {A} (res : A) (tc : TestContext) :
  bind raise_if_failures (λ _, ret res) tc
  = match tc with
    | [] => (Ok res, [])
    | _ :: _ => (Raise (Exc ImplementationFail [] [] None), tc)
    end.
Proof. by destruct tc. Qed.

Lemma dumpit_unfold fsr h ob tc :
  dumpit_ fsr h ob tc
  = match save fsr h ob with
    | Raise e =>
        if isinstance e Exception then
          (Raise (Exc ImplementationFail [] [] (Some e)),
           tc ++ [mkFailure [Fmt (saver_name fsr); Lit ":save() raised an exception"]
                    [("tb", ITraceback e); ("ob", IObject ob)]])
        else (Raise e, tc)
    | Ok VNone =>
        (Raise (Exc ImplementationFail [] [] None),
         tc ++ [mkFailure [Fmt (saver_name fsr); Lit ":save() returned None"]
                  [("ob", IObject ob)]])
    | Ok res =>
        match tc ++ map violation_at (bad_nodes res) with
        | [] => (Ok res, [])
        | f :: fs => (Raise (Exc ImplementationFail [] [] None), f :: fs)
        end
    end.
Proof.
  unfold dumpit_. unfold bind at 1. unfold try_except, call.
  destruct (save fsr h ob) as [res|e].
  - destruct res; try reflexivity;
      (unfold bind at 1; rewrite check_good_output_appends;
       rewrite raise_if_failures_then; by destruct (tc ++ _)).
  - by destruct (isinstance e Exception).
Qed.

(** X15.  [dumpit_] returns exactly when [save] returns a value that is
    not [None] and is good, and the test context holds no failure: it then
    returns that value and the context is still empty.  With a failure in
    the context, recorded before or by the checks, it raises. *)
Theorem dumpit_returns_iff
    (fsr : Saver) (h : IOHelper) (ob res : value) (tc tc' : TestContext) :
  dumpit_ fsr h ob tc = (Ok res, tc')
  ↔ save fsr h ob = Ok res ∧ res ≠ VNone ∧ good res = true ∧ tc = [] ∧ tc' = [].
Proof.
  rewrite dumpit_unfold. destruct (save fsr h ob) as [res0|e].
  - assert (match tc ++ map violation_at (bad_nodes res0) with
            | [] => (Ok res0, [])
            | f :: fs => (Raise (Exc ImplementationFail [] [] None), f :: fs)
            end = (Ok res, tc')
            ↔ res0 = res ∧ good res0 = true ∧ tc = [] ∧ tc' = []) as Hpost.
    { rewrite <- bad_nodes_nil. split.
      - destruct (tc ++ _) eqn:Happ; [|done]. intros Heq. simplify_eq.
        apply app_eq_nil in Happ as [-> Hbad]. by destruct (bad_nodes res).
      - by intros (-> & -> & -> & ->). }
    destruct res0; try (rewrite Hpost; split;
                        [intros (<- & ? & ? & ?); by split_and!
                        |intros (? & ? & ? & ? & ?); by simplify_eq]).
    split; [done | intros (? & ? & _); by simplify_eq].
  - split; [by destruct (isinstance e Exception) | by intros [? _]].
Qed.

Lemma dumpit_returns_iff_witness :
  dumpit_ (mkSaver "MySaver" (λ _ ob, Ok (VDict 1 [("elements", VList 2 [ob])])))
    IOHelperImp (VInt 3) []
  = (Ok (VDict 1 [("elements", VList 2 [VInt 3])]), []).
Proof.
  apply (dumpit_returns_iff
           (mkSaver "MySaver" (λ _ ob, Ok (VDict 1 [("elements", VList 2 [ob])])))).
  by split_and!.
Defined.

(** X16.  When [dumpit_] raises, either [save] raised something that is not
    an [Exception], which passes unchanged with the context as it was, or
    [ImplementationFail] is raised with a context that holds a failure and
    extends the one before the call; the cause of the [ImplementationFail]
    is the exception of [save] when [save] raised, and there is none
    otherwise. *)
Theorem dumpit_raises
    (fsr : Saver) (h : IOHelper) (ob : value) (tc tc' : TestContext) (e : exc) :
  dumpit_ fsr h ob tc = (Raise e, tc') →
  (save fsr h ob = Raise e ∧ isinstance e Exception = false ∧ tc' = tc)
  ∨ (exc_cls e = ImplementationFail
     ∧ tc' ≠ []
     ∧ (∃ fs, tc' = tc ++ fs)
     ∧ ∀ e0, exc_cause e = Some e0 ↔ save fsr h ob = Raise e0).
Proof.
  rewrite dumpit_unfold. destruct (save fsr h ob) as [res|e0].
  - assert (match tc ++ map violation_at (bad_nodes res) with
            | [] => (Ok res, [])
            | f :: fs => (Raise (Exc ImplementationFail [] [] None), f :: fs)
            end = (Raise e, tc') →
            exc_cls e = ImplementationFail ∧ tc' ≠ [] ∧ (∃ fs, tc' = tc ++ fs)
            ∧ ∀ e1, exc_cause e = Some e1 ↔ @Ok value res = Raise e1) as Hpost.
    { destruct (tc ++ _) eqn:Happ; [done|]. intros Heq. simplify_eq.
      split_and!; [done | done | by eexists | done]. }
    destruct res; try (intros Heq; right; by apply Hpost).
    intros Heq. simplify_eq. right.
    split_and!; [done | by destruct tc | by eexists | done].
  - destruct (isinstance e0 Exception) eqn:Hex; intros Heq; simplify_eq.
    + right. split_and!; [done | by destruct tc | by eexists |].
      intros e1. simpl. split; congruence.
    + by left.
Qed.

Lemma dumpit_raises_witness :
  (save (mkSaver "MySaver" (λ _ _, Ok VNone)) IOHelperImp (VInt 3)
   = Raise (Exc ImplementationFail [] [] None)
   ∧ isinstance (Exc ImplementationFail [] [] None) Exception = false
   ∧ [mkFailure [Fmt "MySaver"; Lit ":save() returned None"] [("ob", IObject (VInt 3))]]
     = [])
  ∨ (exc_cls (Exc ImplementationFail [] [] None) = ImplementationFail
     ∧ [mkFailure [Fmt "MySaver"; Lit ":save() returned None"] [("ob", IObject (VInt 3))]]
       ≠ []
     ∧ (∃ fs, [mkFailure [Fmt "MySaver"; Lit ":save() returned None"]
                 [("ob", IObject (VInt 3))]] = [] ++ fs)
     ∧ ∀ e0, exc_cause (Exc ImplementationFail [] [] None) = Some e0
             ↔ save (mkSaver "MySaver" (λ _ _, Ok VNone)) IOHelperImp (VInt 3) = Raise e0).
Proof.
  apply (dumpit_raises (mkSaver "MySaver" (λ _ _, Ok VNone)) IOHelperImp (VInt 3) []).
  reflexivity.
Defined.

Lemma loadit_unfold loader h data K tc :
  loadit_ loader h data K tc
  = match load loader h data with
    | Raise e =>
        if isinstance e NotImplementedError then (Raise e, tc)
        else
          (Raise (Exc ImplementationFail [] [] (Some e)),
           tc ++ [mkFailure
                    (if isinstance e InvalidFormat then
                       [Lit "Implementation of "; Fmt (loader_name loader);
                        Lit ".load() threw InvalidFormat but the format is valid."]
                     else
                       [Lit "Implementation of "; Fmt (loader_name loader);
                        Lit ".load() threw "; Fmt (class_name (exc_cls e));
                        Lit " but the format is valid."])
                    [("data", IYaml data); ("tb", ITraceback e)]])
    | Ok res =>
        match (if has_instance K res then tc
               else tc ++ [mkFailure [Lit "Expected that "; Fmt (loader_name loader);
                                      Lit ".load() returns a "; Fmt (ty_name K)]
                             [("x", IObject res)]]) with
        | [] => (Ok res, [])
        | f :: fs => (Raise (Exc ImplementationFail [] [] None), f :: fs)
        end
    end.
Proof.
  unfold loadit_. unfold bind at 1. unfold try_except, call.
  destruct (load loader h data) as [res|e].
  - unfold bind at 1. unfold expect_type2.
    destruct (has_instance K res); simpl; rewrite raise_if_failures_then.
    + by destruct tc.
    + by destruct (tc ++ _).
  - destruct (isinstance e NotImplementedError); [done|].
    destruct (isinstance e InvalidFormat); [done|].
    unfold isinstance. by rewrite issubclass_BaseException.
Qed.

(** X17.  [loadit_] returns exactly when [load] returns an instance of the
    expected type and the test context holds no failure: it then returns
    that object and the context is still empty. *)
Theorem loadit_returns_iff
    (loader : Loader) (h : IOHelper) (data res : value) (K : pytype)
    (tc tc' : TestContext) :
  loadit_ loader h data K tc = (Ok res, tc')
  ↔ load loader h data = Ok res ∧ has_instance K res = true ∧ tc = [] ∧ tc' = [].
Proof.
  rewrite loadit_unfold. destruct (load loader h data) as [res0|e].
  - destruct (has_instance K res0) eqn:HK.
    + destruct tc; split.
      * intros Heq. by simplify_eq.
      * intros (? & ? & ? & ?). by simplify_eq.
      * done.
      * by intros (_ & _ & ? & _).
    + split.
      * by destruct tc.
      * intros (? & ? & _). simplify_eq. congruence.
  - split; [|by intros [? _]].
    by destruct (isinstance e NotImplementedError).
Qed.

Lemma loadit_returns_iff_witness :
  loadit_ (mkLoader "MyLoader" (λ _ _, Ok (VObject 1 "MyFiniteSet"))) IOHelperImp
    (VDict 0 [("elements", VList 1 [])])
    (mkType "FiniteSet" (λ x, String.eqb (type_name x) "MyFiniteSet")) []
  = (Ok (VObject 1 "MyFiniteSet"), []).
Proof.
  apply (loadit_returns_iff (mkLoader "MyLoader" (λ _ _, Ok (VObject 1 "MyFiniteSet")))).
  by split_and!.
Defined.

(** X18.  When [loadit_] raises, either [load] raised an instance of
    [NotImplementedError], which passes unchanged with the context as it
    was, or [ImplementationFail] is raised with a context that holds a
    failure and extends the one before the call; its cause is the exception
    of [load] when [load] raised, and there is none when the result had the
    wrong type or the context held failures.  The failure recorded for an
    exception says [InvalidFormat] for [InvalidFormat] and its subclasses,
    and names the class of the exception otherwise. *)
Theorem loadit_raises
    (loader : Loader) (h : IOHelper) (data : value) (K : pytype)
    (tc tc' : TestContext) (e : exc) :
  loadit_ loader h data K tc = (Raise e, tc') →
  (load loader h data = Raise e ∧ isinstance e NotImplementedError = true ∧ tc' = tc)
  ∨ (exc_cls e = ImplementationFail
     ∧ tc' ≠ []
     ∧ (∃ fs, tc' = tc ++ fs)
     ∧ (∀ e0, exc_cause e = Some e0 ↔ load loader h data = Raise e0)
     ∧ ∀ e0, load loader h data = Raise e0 →
             ∃ msg, tc' = tc ++ [mkFailure msg [("data", IYaml data); ("tb", ITraceback e0)]]
                    ∧ (isinstance e0 InvalidFormat = true →
                       msg = [Lit "Implementation of "; Fmt (loader_name loader);
                              Lit ".load() threw InvalidFormat but the format is valid."])
                    ∧ (isinstance e0 InvalidFormat = false →
                       msg = [Lit "Implementation of "; Fmt (loader_name loader);
                              Lit ".load() threw "; Fmt (class_name (exc_cls e0));
                              Lit " but the format is valid."])).
Proof.
  rewrite loadit_unfold. destruct (load loader h data) as [res|e0].
  - intros Heq. right.
    destruct (if has_instance K res then tc else _) as [|f fs] eqn:Hctx; [done|].
    simplify_eq. split_and!; [done | done | | done | done].
    destruct (has_instance K res); [exists []; by rewrite app_nil_r | by eexists].
  - destruct (isinstance e0 NotImplementedError) eqn:Hni; intros Heq; simplify_eq.
    + by left.
    + right. split_and!; [done | by destruct tc | by eexists | |].
      * intros e1. simpl. split; congruence.
      * intros e1 Heq. simplify_eq. eexists. split; [done|].
        split; intros Hinv; by rewrite Hinv.
Qed.

Lemma loadit_raises_witness :
  ∃ tc' e,
    loadit_ (mkLoader "MyLoader"
               (λ _ _, Raise (Exc (UserClass "BadYaml" InvalidFormat) [] [] None)))
      IOHelperImp VNone (mkType "FiniteSet" (λ _, true)) [] = (Raise e, tc')
    ∧ exc_cls e = ImplementationFail
    ∧ tc' ≠ [].
Proof.
  eexists _, _. split; [reflexivity|].
  destruct (loadit_raises
              (mkLoader "MyLoader"
                 (λ _ _, Raise (Exc (UserClass "BadYaml" InvalidFormat) [] [] None)))
              IOHelperImp VNone (mkType "FiniteSet" (λ _, true)) [] _ _ eq_refl)
    as [(_ & Hni & _)|(Hcls & Hne & _)].
  - by vm_compute in Hni.
  - done.
Defined.

(* ===================================================================== *)
(** * [find_yamls] *)
(* ===================================================================== *)

Lemma endswith_cons c s suffix :
  endswith (String c s) suffix
  = if String.eqb (String c s) suffix then true else endswith s suffix.
Proof. reflexivity. Qed.

Lemma endswith_app p s suffix :
  endswith s suffix = true → endswith (String.append p s) suffix = true.
Proof.
  intros Hs. induction p as [|c p IH]; [done|].
  change (String.append (String c p) s) with (String c (String.append p s)).
  rewrite endswith_cons, IH. by destruct (String.eqb _ _).
Qed.

Lemma path_join_endswith d f suffix :
  endswith f suffix = true → endswith (path_join d f) suffix = true.
Proof.
  intros Hf. unfold path_join.
  destruct (starts_with_slash f); [done|].
  destruct (String.eqb d "" || endswith d "/"); by repeat apply endswith_app.
Qed.

Lemma find_yamls_inner (d : string) names res (s : unit) :
  foldM (λ res f,
           if endswith f ".yaml" then ret (res ++ [path_join d f]) else ret res)
        res names s
  = (Ok (res ++ map (path_join d) (filter (λ f, endswith f ".yaml" = true) names)), s).
Proof.
  revert res. induction names as [|f names IH]; intros res; simpl.
  - by rewrite app_nil_r.
  - rewrite filter_cons. unfold bind at 1.
    destruct (decide (endswith f ".yaml" = true)) as [Hf|Hf].
    + rewrite Hf. simpl. rewrite IH. simpl. by rewrite <- app_assoc.
    + apply not_true_is_false in Hf. rewrite Hf. simpl. by rewrite IH.
Qed.

Lemma find_yamls_outer listdir dirnames res (s : unit) :
  (∀ d, d ∈ dirnames → ∃ names, listdir d = Ok names) →
  foldM (λ res dirname,
           names <- call (listdir dirname) ;;
           foldM (λ res f,
                    if endswith f ".yaml" then ret (res ++ [path_join dirname f])
                    else ret res)
                 res names)
        res dirnames s
  = (Ok (res ++ concat (map (yamls_of listdir) dirnames)), s).
Proof.
  revert res. induction dirnames as [|d dirnames IH]; intros res Hlist; simpl.
  - by rewrite app_nil_r.
  - destruct (Hlist d ltac:(left)) as [names Hnames].
    unfold bind at 1. unfold bind at 1. unfold call. rewrite Hnames.
    rewrite find_yamls_inner. rewrite IH by (intros d' Hd'; apply Hlist; by right).
    unfold yamls_of at 2. rewrite Hnames. by rewrite <- app_assoc.
Qed.

Lemma yamls_of_endswith listdir d :
  Forall (λ p, endswith p ".yaml" = true) (yamls_of listdir d).
Proof.
  unfold yamls_of. destruct (listdir d) as [names|e]; [|constructor].
  apply Forall_forall. intros p (f & -> & Hf)%list_elem_of_fmap.
  apply list_elem_of_filter in Hf as [Hf _]. by apply path_join_endswith.
Qed.

(** X19.  When every directory can be listed, [find_yamls] returns, for the
    directories in order, the entries of each listing that end in [.yaml],
    in the order of the listing, each joined to its directory; every path
    returned ends in [.yaml].  When a directory cannot be listed and the ones before it can,
    the error of the listing is raised and no path is returned. *)
Theorem find_yamls_lists_yaml_files
    (listdir : string → result (list string)) (dirnames : list string) :
  ((∀ d, d ∈ dirnames → ∃ names, listdir d = Ok names) →
   find_yamls listdir dirnames tt = (Ok (concat (map (yamls_of listdir) dirnames)), tt)
   ∧ Forall (λ p, endswith p ".yaml" = true) (concat (map (yamls_of listdir) dirnames)))
  ∧ (∀ pre d post e,
       dirnames = pre ++ d :: post →
       (∀ d', d' ∈ pre → ∃ names, listdir d' = Ok names) →
       listdir d = Raise e →
       find_yamls listdir dirnames tt = (Raise e, tt)).
Proof.
  split.
  - intros Hlist. split.
    + unfold find_yamls. by rewrite find_yamls_outer.
    + apply Forall_concat, Forall_fmap, Forall_forall. intros d _.
      apply yamls_of_endswith.
  - intros pre d post e -> Hpre Hd. unfold find_yamls. rewrite foldM_app.
    erewrite bind_Ok by by apply find_yamls_outer.
    simpl. unfold bind at 1. unfold bind at 1. unfold call. by rewrite Hd.
Qed.

Lemma find_yamls_lists_yaml_files_witness :
  (find_yamls sample_listdir ["thedata"] tt
   = (Ok (concat (map (yamls_of sample_listdir) ["thedata"])), tt)
   ∧ Forall (λ p, endswith p ".yaml" = true)
       (concat (map (yamls_of sample_listdir) ["thedata"])))
  ∧ find_yamls sample_listdir ["thedata"; "elsewhere"; "thedata"] tt
    = (Raise (Exc (UserClass "FileNotFoundError" Exception) [Fmt "elsewhere"] [] None), tt).
Proof.
  split.
  - apply (find_yamls_lists_yaml_files sample_listdir ["thedata"]).
    intros d ->%list_elem_of_singleton. by eexists.
  - apply (find_yamls_lists_yaml_files sample_listdir ["thedata"; "elsewhere"; "thedata"])
      with (pre := ["thedata"]) (d := "elsewhere") (post := ["thedata"]).
    + reflexivity.
    + intros d ->%list_elem_of_singleton. by eexists.
    + reflexivity.
Defined.

(** The paths of the sample directory. *)
Example find_yamls_sample :
  find_yamls sample_listdir ["thedata"] tt
  = (Ok ["thedata/sets.yaml"; "thedata/posets.yaml"], tt).
Proof. reflexivity. Qed.
